(** * evals/utils/api_utils.py: retrying wrappers around the completion calls

    A shallow embedding of [src/evals/utils/api_utils.py].  The module has
    three functions:

    - [openai_completion_create_retrying]: the remote call under
      [backoff.on_exception];
    - [request_with_timeout]: one request on a one-worker thread pool, waited
      for with a deadline, re-issued when the wait times out;
    - [openai_chat_completion_create_retrying]: the remote call routed
      through [request_with_timeout], again under [backoff.on_exception].

    Everything the functions do is an effect (a remote call, a wait, a sleep,
    a log record), so the embedding threads an explicit [World] through the
    code: a wall clock, the number of remote calls issued, the number of
    random draws consumed and the trace of observable events.  The two
    [while True] loops take fuel; a run whose fuel ran out yields [None]
    together with the world it had reached, so that what is proved of the
    trace also holds of the runs that never leave a loop.

    Time is a rational number of seconds.  The floats of the source only
    carry the waits 1.5 * 2^n and the cap 60, which binary floating point
    represents exactly. *)

From Stdlib Require Import Ascii String QArith Qpower Qminmax Lqa.
From Stdlib Require Qcanon.
From stdpp Require Import gmap strings list fin_maps.

Local Set Warnings "-register-all".
Local Open Scope Q_scope.

(** ** Python values *)

(** The JSON-like fragment of Python values that requests and responses are
    made of.  Keyword arguments and responses are mappings with string keys. *)
Inductive value : Type :=
  | VNone
  | VBool (b : bool)
  | VNum (q : Q)
  | VStr (s : string)
  | VList (l : list value)
  | VDict (d : gmap string value).

Abbreviation Response := (gmap string value).
Abbreviation Kwargs := (gmap string value).

(** ** Exceptions *)

(** The five attributes of [openai_error] named in the [exception=] tuple of
    both decorators (lines 30-36 and 68-74).  Lines 12-23 bind them to the
    classes of [openai.error] when that module exists; the embedding follows
    that branch, where each class is built from its message alone, as line
    48 does. *)
Inductive ErrorKind : Type :=
  | ServiceUnavailableError
  | APIError
  | RateLimitError
  | APIConnectionError
  | Timeout.

Global Instance ErrorKind_eq_dec : EqDecision ErrorKind.
Proof. solve_decision. Defined.

(** A raised exception, up to what the two [except] clauses of the program
    can tell apart: an instance of one of the [openai_error] classes with its
    argument, an instance of [concurrent.futures.TimeoutError] (which from
    Python 3.11 on is the builtin [TimeoutError]), a [TypeError], or an
    instance of none of these (named by its class). *)
Inductive exn : Type :=
  | OpenAIError (k : ErrorKind) (payload : value)
  | FuturesTimeoutError
  | TypeError (msg : string)
  | OtherError (name : string).

(** The result of running a piece of Python: it returns or it raises. *)
Inductive res (A : Type) : Type :=
  | Ret (a : A)
  | Raise (e : exn).
Arguments Ret {A} a.
Arguments Raise {A} e.

(** [isinstance(e, classes)] for a tuple of [openai_error] classes. *)
Definition isinstance (e : exn) (classes : list ErrorKind) : bool :=
  match e with
  | OpenAIError k _ => bool_decide (k ∈ classes)
  | _ => false
  end.

(** ** The world *)

Inductive event : Type :=
  | EvCall (at_time : Q) (args : list value) (kwargs : Kwargs)
      (* the remote call starts running with these arguments *)
  | EvWait (timeout : value)
      (* future.result(timeout=timeout) *)
  | EvTimedOut (at_time : Q)
      (* that wait gave up *)
  | EvWarn (record : Response)
      (* logging.warning(record) *)
  | EvSleep (seconds : Q).
      (* time.sleep(seconds), called by backoff between two tries *)

Record World : Type := mkWorld {
  now : Q;
  ncalls : nat;
  draws : nat;
  environ : gmap string string;
  trace : list event;
}.

Definition emit (ev : event) (w : World) : World :=
  mkWorld (now w) (ncalls w) (draws w) (environ w) (trace w ++ [ev]).

Definition set_now (t : Q) (w : World) : World :=
  mkWorld t (ncalls w) (draws w) (environ w) (trace w).

Definition count_call (w : World) : World :=
  mkWorld (now w) (S (ncalls w)) (draws w) (environ w) (trace w).

Definition count_draw (w : World) : World :=
  mkWorld (now w) (ncalls w) (S (draws w)) (environ w) (trace w).

(** Effectful code: a world in, a world out, and the result if the code
    has come to one ([None] when the fuel of a loop ran out first). *)
Definition M (A : Type) : Type := World -> option (res A) * World.

Definition finished {A : Type} (p : res A * World) : option (res A) * World :=
  (Some (fst p), snd p).

(** *** Projections of a trace *)

Definition calls_of (tr : list event) : list (list value * Kwargs) :=
  omap (fun ev => match ev with EvCall _ a k => Some (a, k) | _ => None end) tr.

Definition call_times_of (tr : list event) : list Q :=
  omap (fun ev => match ev with EvCall t _ _ => Some t | _ => None end) tr.

Definition waits_of (tr : list event) : list value :=
  omap (fun ev => match ev with EvWait t => Some t | _ => None end) tr.

Definition timeouts_of (tr : list event) : list Q :=
  omap (fun ev => match ev with EvTimedOut t => Some t | _ => None end) tr.

Definition warnings_of (tr : list event) : list Response :=
  omap (fun ev => match ev with EvWarn r => Some r | _ => None end) tr.

Definition sleeps_of (tr : list event) : list Q :=
  omap (fun ev => match ev with EvSleep s => Some s | _ => None end) tr.

(** ** The collaborators *)

(** What one invocation of the remote call does: it runs for [runtime]
    seconds (a positive number) and then returns a response or raises.
    Every invocation comes to an end; one that never did would hold its
    caller, and [executor_exit] below, forever. *)
Record Behaviour : Type := mkBehaviour {
  runtime : Q;
  outcome : Response + exn;
}.

(** The remote call ([openai.Completion.create], [openai.ChatCompletion.create]
    or any [func] given to [request_with_timeout]) is opaque and stateful: its
    behaviour is a function of how many calls were issued before this one and
    of the arguments it receives. *)
Definition Callable : Type := nat -> list value -> Kwargs -> Behaviour.

Definition res_of_outcome (o : Response + exn) : res Response :=
  match o with
  | inl r => Ret r
  | inr e => Raise e
  end.

(** Calling [func] with [args] and [kwargs] on the calling thread: the caller
    is blocked for the whole run. *)
Definition call (func : Callable) (args : list value) (kwargs : Kwargs)
    (w : World) : res Response * World :=
  let b := func (ncalls w) args kwargs in
  (res_of_outcome (outcome b),
   set_now (now w + runtime b) (count_call (emit (EvCall (now w) args kwargs) w))).

(** ** Module initialisation (line 25) *)

(** *** [float] on a string

    Python's [float] on the strings whose result the embedding can name: a
    decimal literal (optional surrounding ASCII white space, an optional
    sign, digits with an optional fraction, at least one digit overall, and
    an optional decimal exponent) whose value is itself a double, so that
    the correctly rounded result of Python is that value.  On these [float]
    is [Some] of the value.  [None] says nothing about Python: it covers the
    strings on which Python raises [ValueError] as well as those it accepts
    and the embedding does not follow ([inf], [nan], digits grouped by
    underscores, literals that Python has to round). *)

Definition is_space (c : ascii) : bool :=
  let n := nat_of_ascii c in
  (n =? 32)%nat || ((9 <=? n)%nat && (n <=? 13)%nat).

Definition digit_of (c : ascii) : option Z :=
  let n := nat_of_ascii c in
  if ((48 <=? n)%nat && (n <=? 57)%nat)%bool then Some (Z.of_nat (n - 48)) else None.

Fixpoint lstrip (s : list ascii) : list ascii :=
  match s with
  | c :: s' => if is_space c then lstrip s' else s
  | [] => []
  end.

Definition strip (s : list ascii) : list ascii :=
  reverse (lstrip (reverse (lstrip s))).

Fixpoint take_digits (s : list ascii) : list Z * list ascii :=
  match s with
  | c :: s' =>
      match digit_of c with
      | Some d => let '(ds, rest) := take_digits s' in (d :: ds, rest)
      | None => ([], s)
      end
  | [] => ([], [])
  end.

Definition Z_of_digits (ds : list Z) : Z :=
  fold_left (fun acc d => (10 * acc + d)%Z) ds 0%Z.

Definition take_sign (s : list ascii) : bool * list ascii :=
  match s with
  | "-"%char :: s' => (true, s')
  | "+"%char :: s' => (false, s')
  | _ => (false, s)
  end.

Definition take_exponent (s : list ascii) : option (Z * list ascii) :=
  match s with
  | c :: s' =>
      if bool_decide (c = "e"%char \/ c = "E"%char) then
        let '(neg, s1) := take_sign s' in
        let '(ds, rest) := take_digits s1 in
        match ds with
        | [] => None
        | _ => Some ((if neg then - Z_of_digits ds else Z_of_digits ds)%Z, rest)
        end
      else Some (0%Z, s)
  | [] => Some (0%Z, [])
  end.

Fixpoint is_power_of_two (p : positive) : bool :=
  match p with
  | xH => true
  | xO p' => is_power_of_two p'
  | xI _ => false
  end.

(** A sufficient test for a rational in lowest terms to be a double: an
    integer of at most 53 bits over a power of two no larger than 2^1074. *)
Definition exact_double (q : Q) : bool :=
  (Z.abs (Qnum q) <=? 2 ^ 53)%Z
  && is_power_of_two (Qden q)
  && (Z.log2 (Z.pos (Qden q)) <=? 1074)%Z.

Definition float (s : string) : option Q :=
  let '(neg, s1) := take_sign (strip (list_ascii_of_string s)) in
  let '(ip, s2) := take_digits s1 in
  let '(fp, s3) :=
    match s2 with
    | "."%char :: s2' => take_digits s2'
    | _ => ([], s2)
    end in
  match ip ++ fp with
  | [] => None
  | ds =>
      match take_exponent s3 with
      | Some (e, []) =>
          let m := inject_Z (Z_of_digits ds) in
          let q := m * Qpower 10 (e - Z.of_nat (length fp)) in
          let v := Qred (if neg then - q else q) in
          if exact_double v then Some v else None
      | _ => None
      end
  end.

(** *** The module object

    [EVALS_THREAD_TIMEOUT = float(os.environ.get("EVALS_THREAD_TIMEOUT", "40"))]
    runs once, when the module is imported; the value is then the default of
    the [timeout] parameter of [request_with_timeout], bound when the [def]
    on line 52 is executed.  The import is followed where [float] is:
    [None] is an import that fails or whose constant the embedding does not
    name. *)
Record Module : Type := mkModule {
  EVALS_THREAD_TIMEOUT : Q;
}.

Definition environ_get (w : World) (key dflt : string) : string :=
  default dflt (environ w !! key).

Definition import_api_utils (w : World) : option Module :=
  match float (environ_get w "EVALS_THREAD_TIMEOUT" "40") with
  | Some q => Some (mkModule q)
  | None => None
  end.

(** ** The [backoff] library, as the two decorators use it *)

(** [backoff.expo(base=2, factor=1, max_value=None)], a generator: after the
    priming [send(None)] it holds the exponent [n] and on every further
    [send] yields [factor * base ** n], or [max_value] once that product has
    reached it, in which case [n] stays put. *)
Record expo_state : Type := mkExpo {
  expo_base : Q;
  expo_factor : Q;
  expo_max_value : option Q;
  expo_n : nat;
}.

Definition expo (base factor : Q) (max_value : option Q) : expo_state :=
  mkExpo base factor max_value 0.

Definition Qlt_bool (a b : Q) : bool := negb (Qle_bool b a).

Definition expo_send (g : expo_state) : Q * expo_state :=
  let a := expo_factor g * Qpower (expo_base g) (Z.of_nat (expo_n g)) in
  match expo_max_value g with
  | None => (a, mkExpo (expo_base g) (expo_factor g) None (S (expo_n g)))
  | Some m =>
      if Qlt_bool a m
      then (a, mkExpo (expo_base g) (expo_factor g) (Some m) (S (expo_n g)))
      else (m, g)
  end.

Section Runtime.

(** The stream that [random.random()] produces in this run; every value
    lies in the interval from 0 (included) to 1 (excluded). *)
Variable rng : nat -> Q.

(** [random.uniform(a, b)] is [a + (b - a) * random()]. *)
Definition random_uniform (a b : Q) (w : World) : Q * World :=
  (a + (b - a) * rng (draws w), count_draw w).

(** [backoff.full_jitter(value)], the default of the [jitter] parameter of
    [on_exception]; neither decorator overrides it. *)
Definition full_jitter (value : Q) (w : World) : Q * World :=
  random_uniform 0 value w.

Definition sleep (seconds : Q) (w : World) : World :=
  set_now (now w + seconds) (emit (EvSleep seconds) w).

(** The [retry] closure that [backoff.on_exception] returns.  With the
    defaults [max_tries=None], [max_time=None] and [giveup] constantly
    false, which neither decorator overrides, the loop stops only when
    [target] returns or raises something that is not an instance of
    [exception]. *)
Fixpoint retry (fuel : nat) (exception : list ErrorKind)
    (target : M Response) (wait : expo_state) (w : World)
    : option (res Response) * World :=
  match fuel with
  | O => (None, w)
  | S fuel' =>
      match target w with
      | (None, w1) => (None, w1)
      | (Some (Ret ret), w1) => (Some (Ret ret), w1)
      | (Some (Raise e), w1) =>
          if isinstance e exception then
            let '(value, wait') := expo_send wait in
            let '(seconds, w2) := full_jitter value w1 in
            retry fuel' exception target wait' (sleep seconds w2)
          else (Some (Raise e), w1)
      end
  end.

(** The decorator [backoff.on_exception] with [wait_gen=backoff.expo] and
    the keywords [exception], [max_value] and [factor]; [base] keeps the
    default 2 of [expo]. *)
Definition on_exception (exception : list ErrorKind) (max_value factor : Q)
    (target : M Response) (fuel : nat) : M Response :=
  retry fuel exception target (expo 2 factor (Some max_value)).

(** The tuple on lines 30-36 and 68-74. *)
Definition retryable : list ErrorKind :=
  [ServiceUnavailableError; APIError; RateLimitError; APIConnectionError; Timeout].

(** ** [openai_completion_create_retrying] (lines 28-49) *)

(** Lines 46-49, shared verbatim by both wrappers. *)
Definition reclassify (result : Response) (w : World) : res Response * World :=
  match result !! "error" with
  | Some payload => (Raise (OpenAIError APIError payload), emit (EvWarn result) w)
  | None => (Ret result, w)
  end.

(** The undecorated body, one try. *)
Definition completion_target (create : Callable) (args : list value)
    (kwargs : Kwargs) : M Response :=
  fun w =>
    match call create args kwargs w with
    | (Ret result, w1) => finished (reclassify result w1)
    | (Raise e, w1) => (Some (Raise e), w1)
    end.

Definition openai_completion_create_retrying (create : Callable) (fuel : nat)
    (args : list value) (kwargs : Kwargs) : M Response :=
  on_exception retryable 60 (3 # 2) (completion_target create args kwargs) fuel.

(** ** [request_with_timeout] (lines 52-63) *)

(** A submitted piece of work: when its worker started and what it does. *)
Record Future : Type := mkFuture {
  started : Q;
  work : Behaviour;
}.

Definition finish_time (fut : Future) : Q := started fut + runtime (work fut).

(** [ThreadPoolExecutor(max_workers=1)] followed by [executor.submit]: the
    pool is fresh, so its only worker starts on the work at once. *)
Definition submit (func : Callable) (args : list value) (kwargs : Kwargs)
    (w : World) : Future * World :=
  (mkFuture (now w) (func (ncalls w) args kwargs),
   count_call (emit (EvCall (now w) args kwargs) w)).

(** The [timeout] argument as [threading.Condition.wait] reads it: [None]
    waits without a deadline, a number is a deadline in seconds ([True] and
    [False] are the integers 1 and 0), anything else fails the comparison
    with 0 by a [TypeError]. *)
Definition deadline_of (timeout : value) : option (option Q) :=
  match timeout with
  | VNone => Some None
  | VNum t => Some (Some t)
  | VBool b => Some (Some (if b then 1 else 0))
  | _ => None
  end.

Definition completes_within (b : Behaviour) (deadline : option Q) : bool :=
  match deadline with
  | None => true
  | Some t => Qle_bool (runtime b) t
  end.

(** [future.result(timeout=timeout)]: the result or the exception of the
    work if it is done by the deadline, [concurrent.futures.TimeoutError]
    at the deadline otherwise.  A deadline that is not positive is not
    waited for. *)
Definition future_result (fut : Future) (timeout : value) (w : World)
    : res Response * World :=
  let w1 := emit (EvWait timeout) w in
  match deadline_of timeout with
  | None => (Raise (TypeError "'>' not supported"), w1)
  | Some deadline =>
      if completes_within (work fut) deadline
      then (res_of_outcome (outcome (work fut)), set_now (finish_time fut) w1)
      else
        let gave_up := now w1 + Qmax 0 (default 0 deadline) in
        (Raise FuturesTimeoutError, emit (EvTimedOut gave_up) (set_now gave_up w1))
  end.

(** Leaving the [with] block on line 57, by [return], [continue] or an
    exception alike, runs [executor.__exit__], that is
    [shutdown(wait=True)]: the caller is held until the worker has
    finished its work. *)
Definition executor_exit (fut : Future) (w : World) : World :=
  set_now (Qmax (now w) (finish_time fut)) w.

Fixpoint request_with_timeout (fuel : nat) (func : Callable)
    (args : list value) (timeout : value) (kwargs : Kwargs) (w : World)
    : option (res Response) * World :=
  match fuel with
  | O => (None, w)
  | S fuel' =>
      let '(future, w1) := submit func args kwargs w in
      let '(r, w2) := future_result future timeout w1 in
      let w3 := executor_exit future w2 in
      match r with
      | Raise FuturesTimeoutError =>
          request_with_timeout fuel' func args timeout kwargs w3
      | _ => (Some r, w3)
      end
  end.

(** ** [openai_chat_completion_create_retrying] (lines 66-87) *)

Variable api_utils : Module.

(** How the call on line 83 binds to the signature on line 52,
    [(func, *args, timeout=EVALS_THREAD_TIMEOUT, **kwargs)]: the callable
    fills [func], so a keyword of that name is a [TypeError]; a keyword
    [timeout] fills the parameter of that name and every other keyword
    stays in [kwargs]. *)
Definition bind_request_with_timeout (kwargs : Kwargs) : exn + (value * Kwargs) :=
  match kwargs !! "func" with
  | Some _ => inl (TypeError "got multiple values for argument 'func'")
  | None =>
      inr (default (VNum (EVALS_THREAD_TIMEOUT api_utils)) (kwargs !! "timeout"),
           delete "timeout" kwargs)
  end.

Definition chat_completion_target (create : Callable) (fuel : nat)
    (args : list value) (kwargs : Kwargs) : M Response :=
  fun w =>
    match bind_request_with_timeout kwargs with
    | inl e => (Some (Raise e), w)
    | inr (timeout, kwargs') =>
        match request_with_timeout fuel create args timeout kwargs' w with
        | (None, w1) => (None, w1)
        | (Some (Ret result), w1) => finished (reclassify result w1)
        | (Some (Raise e), w1) => (Some (Raise e), w1)
        end
    end.

Definition openai_chat_completion_create_retrying (create : Callable)
    (fuel : nat) (args : list value) (kwargs : Kwargs) : M Response :=
  on_exception retryable 60 (3 # 2) (chat_completion_target create fuel args kwargs) fuel.

End Runtime.

(** * Vocabulary of the statements *)

(** The schedule in the words of the specification: exponential, growth
    factor 1.5 on the powers of two, capped at 60. *)
Definition capped_expo (k : nat) : Q :=
  let a := (3 # 2) * Qpower 2 (Z.of_nat k) in
  if Qlt_bool a 60 then a else 60.

(** What [full_jitter] makes of that schedule before the retries number
    0, 1, ..., N-1, when [d] draws were consumed before. *)
Definition backoff_delays (rng : nat -> Q) (d N : nat) : list Q :=
  map (fun k => 0 + (capped_expo k - 0) * rng (d + k)%nat) (seq 0 N).

(** The state of the generator of both decorators after [k] sends. *)
Definition expo_after (k : nat) : expo_state :=
  mkExpo 2 (3 # 2) (Some 60) (Nat.min k 6).

(** From call number [c] on, the remote call raises an exception of the
    tuple [N] times and then returns [r], a response without an ["error"]
    field. *)
Definition fails_then_succeeds (create : Callable) (args : list value)
    (kwargs : Kwargs) (c N : nat) (r : Response) : Prop :=
  (forall i, (i < N)%nat ->
     exists e, outcome (create (c + i)%nat args kwargs) = inr e /\
               isinstance e retryable = true) /\
  outcome (create (c + N)%nat args kwargs) = inl r /\
  r !! "error" = None.

(** The calls number [c], ..., [c + N] all finish by the deadline. *)
Definition all_in_time (create : Callable) (args : list value)
    (kwargs : Kwargs) (c N : nat) (deadline : option Q) : Prop :=
  forall i, (i <= N)%nat ->
    completes_within (create (c + i)%nat args kwargs) deadline = true.

Definition nondecreasing (l : list Q) : Prop :=
  forall i a b, l !! i = Some a -> l !! S i = Some b -> a <= b.

(** What the timeout-guarded wrapper lets the trace show of a run: every
    remote call received [args] and [kwargs], every wait on a future was
    given [timeout]. *)
Definition guarded_event (args : list value) (kwargs : Kwargs) (timeout : value)
    (ev : event) : Prop :=
  match ev with
  | EvCall _ a k => a = args /\ k = kwargs
  | EvWait t => t = timeout
  | _ => True
  end.

(** What one try of a wrapper makes of a response, by lines 46-49 and
    84-87. *)
Definition reclassified (result : Response) : res Response :=
  match result !! "error" with
  | Some payload => Raise (OpenAIError APIError payload)
  | None => Ret result
  end.

(** The world after a round of [request_with_timeout] whose work is done by
    the deadline. *)
Definition after_round (func : Callable) (args : list value) (timeout : value)
    (kwargs : Kwargs) (w : World) : World :=
  let '(fut, w1) := submit func args kwargs w in
  executor_exit fut (set_now (finish_time fut) (emit (EvWait timeout) w1)).

(** The world after a round whose wait gave up at the deadline [t]. *)
Definition after_timeout (func : Callable) (args : list value) (timeout : value)
    (kwargs : Kwargs) (t : Q) (w : World) : World :=
  let '(fut, w1) := submit func args kwargs w in
  let w2 := emit (EvWait timeout) w1 in
  let gave_up := now w2 + Qmax 0 t in
  executor_exit fut (emit (EvTimedOut gave_up) (set_now gave_up w2)).

(** One try of [target] from [w]: it issues one remote call, draws no random
    number and does not sleep. *)
Definition one_try (target : M Response) (w : World) (x : res Response)
    (w1 : World) : Prop :=
  target w = (Some x, w1) /\
  ncalls w1 = S (ncalls w) /\
  draws w1 = draws w /\
  sleeps_of (trace w1) = sleeps_of (trace w).

(** * Sample runs *)

Definition ex_world : World := mkWorld 0 0 0 ∅ [].

Definition ex_api_utils : Module := mkModule 40.

Definition ex_ok : Response := {[ "choices" := VList [] ]}.

Definition ex_rate_limited : Response :=
  {[ "error" := VDict {[ "message" := VStr "rate limited" ]} ]}.

Definition ex_nested : Response :=
  {[ "data" := VDict {[ "error" := VStr "nested" ]} ]}.

(** Every call takes a second and returns [r]. *)
Definition ex_returns (r : Response) : Callable :=
  fun _ _ _ => mkBehaviour 1 (inl r).

(** Call 0 takes a second and raises [e]; the later calls return [ex_ok]. *)
Definition ex_raises_once (e : exn) : Callable :=
  fun i _ _ =>
    match i with
    | O => mkBehaviour 1 (inr e)
    | _ => mkBehaviour 1 (inl ex_ok)
    end.

(** Calls 0 and 1 are rate limited, call 2 returns. *)
Definition ex_flaky : Callable :=
  fun i _ _ =>
    match i with
    | 0 | 1 => mkBehaviour 1 (inr (OpenAIError RateLimitError VNone))
    | _ => mkBehaviour 1 (inl ex_ok)
    end%nat.

(** The first draw is 4/5, every later one 1/10. *)
Definition ex_rng : nat -> Q :=
  fun i => match i with O => 4 # 5 | _ => 1 # 10 end.

(** The first [n] calls take 100 seconds, whatever they would return; the
    later ones return [ex_ok] after a second. *)
Definition ex_slow (n : nat) : Callable :=
  fun i _ _ =>
    if (i <? n)%nat then mkBehaviour 100 (inl ex_rate_limited)
    else mkBehaviour 1 (inl ex_ok).

Definition ex_no_kwargs : Kwargs := ∅.

Definition ex_kwargs : Kwargs :=
  {[ "timeout" := VNum 5; "model" := VStr "gpt-4" ]}.

Definition ex_kwargs_func : Kwargs :=
  {[ "timeout" := VNum 5; "func" := VStr "f" ]}.

(** * Vocabulary of the further properties *)

(** The response that a try logs and turns into an [APIError], if the outcome
    of its remote call is one. *)
Definition embedded_error (o : Response + exn) : option Response :=
  match o with
  | inl r => match r !! "error" with Some _ => Some r | None => None end
  | inr _ => None
  end.

(** An outcome that makes [backoff] try again: an exception of the tuple or
    a response with an ["error"] field. *)
Definition transient (o : Response + exn) : Prop :=
  match o with
  | inl r => is_Some (r !! "error")
  | inr e => isinstance e retryable = true
  end.

(** The outcomes and the runtimes of the [n] calls from call number [c] on. *)
Definition outcomes_from (func : Callable) (args : list value) (kwargs : Kwargs)
    (c n : nat) : list (Response + exn) :=
  map (fun i => outcome (func (c + i)%nat args kwargs)) (seq 0 n).

Definition runtimes_from (func : Callable) (args : list value) (kwargs : Kwargs)
    (c n : nat) : list Q :=
  map (fun i => runtime (func (c + i)%nat args kwargs)) (seq 0 n).

Definition Qsum (l : list Q) : Q := fold_right Qplus 0 l.

(** What a run of the plain wrapper on [fuel] has done when it stands at
    [run], having started from [w] with the generator [k] sends in: [n] tries
    and [m] sleeps. *)
Definition plain_invariant (rng : nat -> Q) (create : Callable)
    (args : list value) (kwargs : Kwargs) (fuel k : nat) (w : World)
    (run : option (res Response) * World) : Prop :=
  exists n m,
    (m <= fuel)%nat /\
    (fuel <> 0%nat -> n <> 0%nat) /\
    ncalls (snd run) = (ncalls w + n)%nat /\
    draws (snd run) = (draws w + m)%nat /\
    n = match fst run with Some _ => S m | None => m end /\
    calls_of (trace (snd run)) = calls_of (trace w) ++ replicate n (args, kwargs) /\
    waits_of (trace (snd run)) = waits_of (trace w) /\
    warnings_of (trace (snd run))
    = warnings_of (trace w)
      ++ omap embedded_error (outcomes_from create args kwargs (ncalls w) n) /\
    sleeps_of (trace (snd run))
    = sleeps_of (trace w)
      ++ map (fun j => 0 + (capped_expo (k + j) - 0) * rng (draws w + j)%nat) (seq 0 m).

(** One pass through the body of the loop of [request_with_timeout], lines
    57-63: what [future.result] gave and the world on leaving the [with]
    block. *)
Definition one_round (func : Callable) (args : list value) (timeout : value)
    (kwargs : Kwargs) (w : World) : res Response * World :=
  let '(future, w1) := submit func args kwargs w in
  let '(r, w2) := future_result future timeout w1 in
  (r, executor_exit future w2).

(** Every call takes 100 seconds. *)
Definition ex_always_slow : Callable :=
  fun _ _ _ => mkBehaviour 100 (inl ex_ok).

(** Every call is rate limited. *)
Definition ex_always_limited : Callable :=
  fun _ _ _ => mkBehaviour 1 (inr (OpenAIError RateLimitError VNone)).

(** Call 0 returns an embedded error, call 1 is rate limited, call 2
    returns. *)
Definition ex_mixed : Callable :=
  fun i _ _ =>
    match i with
    | 0 => mkBehaviour 1 (inl ex_rate_limited)
    | 1 => mkBehaviour 1 (inr (OpenAIError RateLimitError VNone))
    | _ => mkBehaviour 1 (inl ex_ok)
    end%nat.

(** Two worlds that agree on everything but the waits on futures: the
    clock, the calls, the draws, the sleeps and the warnings. *)
Definition same_but_waits (w1 w2 : World) : Prop :=
  now w1 = now w2 /\
  ncalls w1 = ncalls w2 /\
  draws w1 = draws w2 /\
  calls_of (trace w1) = calls_of (trace w2) /\
  sleeps_of (trace w1) = sleeps_of (trace w2) /\
  warnings_of (trace w1) = warnings_of (trace w2).

Definition ex_kwargs_none : Kwargs :=
  {[ "timeout" := VNone; "model" := VStr "gpt-4" ]}.

(** The decimal literal with the digits [ds], most significant first, and
    an environment that holds it, or any other string, as the setting. *)
Definition digit_char (d : nat) : ascii := ascii_of_nat (48 + d).

Definition decimal_literal (ds : list nat) : string :=
  string_of_list_ascii (map digit_char ds).

Definition ex_world_with (setting : string) : World :=
  mkWorld 0 0 0 {[ "EVALS_THREAD_TIMEOUT" := setting ]} [].

(** The life of the constant: the module is imported in the world [w0] and
    the timeout-guarded wrapper is called later, in the world [w]. *)
Definition import_then_call (rng : nat -> Q) (w0 : World) (create : Callable)
    (fuel : nat) (args : list value) (kwargs : Kwargs) (w : World)
    : option (option (res Response) * World) :=
  match import_api_utils w0 with
  | Some api_utils =>
      Some (openai_chat_completion_create_retrying rng api_utils create fuel args kwargs w)
  | None => None
  end.

(** After an import in [w0], every call without a [timeout] keyword waits
    on its futures with the timeout [q]. *)
Definition default_timeout_is (q : Q) (w0 : World) : Prop :=
  forall rng create fuel args (kwargs : Kwargs) w,
    kwargs !! "timeout" = None ->
    kwargs !! "func" = None ->
    exists run evs,
      import_then_call rng w0 create fuel args kwargs w = Some run /\
      trace (snd run) = trace w ++ evs /\
      Forall (guarded_event args kwargs (VNum q)) evs /\
      (fuel <> 0%nat -> waits_of evs <> []).

(** * Properties *)

(** ** One try of either wrapper *)

Section OneTry.

Lemma isinstance_retryable (k : ErrorKind) (payload : value) :
  isinstance (OpenAIError k payload) retryable = true.
Proof. destruct k; reflexivity. Qed.

Lemma isinstance_inv (e : exn) (classes : list ErrorKind) :
  isinstance e classes = true -> exists k payload, e = OpenAIError k payload.
Proof. destruct e; simpl; try discriminate; eauto. Qed.

Lemma reclassify_error (result : Response) (payload : value) (w : World) :
  result !! "error" = Some payload ->
  reclassify result w = (Raise (OpenAIError APIError payload), emit (EvWarn result) w).
Proof. intros H. unfold reclassify. now rewrite H. Qed.

Lemma reclassify_clean (result : Response) (w : World) :
  result !! "error" = None -> reclassify result w = (Ret result, w).
Proof. intros H. unfold reclassify. now rewrite H. Qed.

Lemma reclassify_ret_inv (result r : Response) (w w' : World) :
  reclassify result w = (Ret r, w') -> r = result /\ w' = w /\ r !! "error" = None.
Proof.
  unfold reclassify. destruct (result !! "error") eqn:E; intros H; inversion H; subst.
  auto.
Qed.

Lemma completion_target_ret_inv (create : Callable) (args : list value)
    (kwargs : Kwargs) (w w' : World) (r : Response) :
  completion_target create args kwargs w = (Some (Ret r), w') -> r !! "error" = None.
Proof.
  unfold completion_target, call.
  destruct (outcome (create (ncalls w) args kwargs)) as [result | e]; simpl.
  - destruct (reclassify result _) as [x w2] eqn:E. unfold finished. simpl.
    intros H. injection H as -> ->. apply reclassify_ret_inv in E. tauto.
  - discriminate.
Qed.

Lemma warnings_of_app (t1 t2 : list event) :
  warnings_of (t1 ++ t2) = warnings_of t1 ++ warnings_of t2.
Proof. apply omap_app. Qed.

Lemma sleeps_of_app (t1 t2 : list event) :
  sleeps_of (t1 ++ t2) = sleeps_of t1 ++ sleeps_of t2.
Proof. apply omap_app. Qed.

Lemma calls_of_app (t1 t2 : list event) :
  calls_of (t1 ++ t2) = calls_of t1 ++ calls_of t2.
Proof. apply omap_app. Qed.

Lemma timeouts_of_app (t1 t2 : list event) :
  timeouts_of (t1 ++ t2) = timeouts_of t1 ++ timeouts_of t2.
Proof. apply omap_app. Qed.

Lemma waits_of_app (t1 t2 : list event) :
  waits_of (t1 ++ t2) = waits_of t1 ++ waits_of t2.
Proof. apply omap_app. Qed.

End OneTry.

(** ** The retry loop of [backoff] *)

Section Retry.

Variable rng : nat -> Q.

(** Whatever the loop returns, its target returned it from some world. *)
Lemma retry_ret_inv (fuel : nat) (exception : list ErrorKind) (target : M Response) :
  forall (wait : expo_state) (w w' : World) (r : Response),
    retry rng fuel exception target wait w = (Some (Ret r), w') ->
    exists w1, target w1 = (Some (Ret r), w').
Proof.
  induction fuel as [| fuel IH]; intros wait w w' r H; simpl in H.
  - discriminate.
  - destruct (target w) as [[[ret | e] |] w1] eqn:Et; try discriminate.
    + injection H as -> ->. eauto.
    + destruct (isinstance e exception); [| discriminate].
      destruct (expo_send wait) as [v wait'].
      simpl in H. eapply IH, H.
Qed.

(** A target that returns at once is returned at once: no sleep, no
    second try. *)
Lemma retry_first_ret (fuel : nat) (exception : list ErrorKind)
    (target : M Response) (wait : expo_state) (w w1 : World) (r : Response) :
  target w = (Some (Ret r), w1) ->
  retry rng (S fuel) exception target wait w = (Some (Ret r), w1).
Proof. intros H. simpl. now rewrite H. Qed.

(** An exception outside the tuple leaves the loop at once. *)
Lemma retry_first_fatal (fuel : nat) (exception : list ErrorKind)
    (target : M Response) (wait : expo_state) (w w1 : World) (e : exn) :
  target w = (Some (Raise e), w1) ->
  isinstance e exception = false ->
  retry rng (S fuel) exception target wait w = (Some (Raise e), w1).
Proof. intros H Hi. simpl. now rewrite H, Hi. Qed.

End Retry.

(** ** C1: reclassification of embedded errors in the plain wrapper *)

(** C1. Whenever the remote call returns a response, one try of
    [openai_completion_create_retrying] raises [APIError] carrying the
    embedded payload and logs one warning exactly when the response has an
    ["error"] field; otherwise the wrapper returns the response unchanged on
    that first try, without a warning.  No run of the wrapper returns a
    response that has an ["error"] field. *)
Theorem C1_plain_embedded_error (rng : nat -> Q) (create : Callable)
    (args : list value) (kwargs : Kwargs) (w : World) (result : Response)
    (Hcall : outcome (create (ncalls w) args kwargs) = inl result) :
  let first := completion_target create args kwargs w in
  (is_Some (result !! "error") <->
     exists payload, fst first = Some (Raise (OpenAIError APIError payload))) /\
  (is_Some (result !! "error") <->
     warnings_of (trace (snd first)) = warnings_of (trace w) ++ [result]) /\
  (forall payload,
     result !! "error" = Some payload ->
     fst first = Some (Raise (OpenAIError APIError payload))) /\
  (result !! "error" = None ->
     fst first = Some (Ret result) /\
     warnings_of (trace (snd first)) = warnings_of (trace w) /\
     sleeps_of (trace (snd first)) = sleeps_of (trace w) /\
     ncalls (snd first) = S (ncalls w) /\
     forall fuel,
       openai_completion_create_retrying rng create (S fuel) args kwargs w
       = (Some (Ret result), snd first)) /\
  (forall fuel w0 r w',
     openai_completion_create_retrying rng create fuel args kwargs w0
     = (Some (Ret r), w') ->
     r !! "error" = None).
Proof.
  intros first.
  assert (Hfirst : first
                   = finished (reclassify result (snd (call create args kwargs w)))).
  { subst first. unfold completion_target, call. now rewrite Hcall. }
  assert (Hwarn : warnings_of (trace (snd (call create args kwargs w)))
                  = warnings_of (trace w)).
  { simpl. rewrite warnings_of_app. simpl. now rewrite app_nil_r. }
  rewrite Hfirst. clear Hfirst.
  destruct (result !! "error") as [payload |] eqn:Herr.
  - rewrite (reclassify_error _ _ _ Herr). cbn [finished fst snd].
    split; [| split; [| split; [| split]]].
    + split; eauto.
    + split; [intros _ | eauto].
      cbn [emit trace]. now rewrite warnings_of_app, Hwarn.
    + intros p Hp. congruence.
    + discriminate.
    + intros fuel w0 r w' H.
      unfold openai_completion_create_retrying, on_exception in H.
      apply retry_ret_inv in H as [w1 H].
      eapply completion_target_ret_inv, H.
  - rewrite (reclassify_clean _ _ Herr). cbn [finished fst snd].
    split; [| split; [| split; [| split]]].
    + split; [intros [v Hv]; discriminate | intros [p Hp]; discriminate].
    + split; [intros [v Hv]; discriminate |].
      rewrite Hwarn. intros H. apply (f_equal length) in H.
      rewrite length_app in H. simpl in H. lia.
    + discriminate.
    + intros _. split; [reflexivity |]. split; [exact Hwarn |].
      split; [| split; [reflexivity |]].
      * simpl. rewrite sleeps_of_app. simpl. now rewrite app_nil_r.
      * intros fuel. unfold openai_completion_create_retrying, on_exception.
        apply retry_first_ret. unfold completion_target, call.
        rewrite Hcall. simpl res_of_outcome. cbv iota beta.
        now rewrite (reclassify_clean _ _ Herr).
    + intros fuel w0 r w' H.
      unfold openai_completion_create_retrying, on_exception in H.
      apply retry_ret_inv in H as [w1 H].
      eapply completion_target_ret_inv, H.
Qed.

(** ** The backoff schedule *)

Section Schedule.

Lemma Qlt_bool_true (a b : Q) : Qlt_bool a b = true <-> a < b.
Proof.
  unfold Qlt_bool. rewrite negb_true_iff. split.
  - intros H. apply Qnot_le_lt. intros Hle. apply Qle_bool_iff in Hle. congruence.
  - intros H. destruct (Qle_bool b a) eqn:E; [| reflexivity].
    apply Qle_bool_iff in E. exfalso. eapply Qlt_not_le; eauto.
Qed.

Lemma Qlt_bool_false (a b : Q) : Qlt_bool a b = false <-> b <= a.
Proof.
  unfold Qlt_bool. rewrite negb_false_iff. apply Qle_bool_iff.
Qed.

Lemma pow2_from_6 (k : nat) : (6 <= k)%nat -> 64 <= Qpower 2 (Z.of_nat k).
Proof.
  intros H. change 64 with (Qpower 2 6).
  apply Qpower_le_compat_l; [lia | discriminate].
Qed.

Lemma capped_expo_small (k : nat) :
  (k < 6)%nat -> capped_expo k = (3 # 2) * Qpower 2 (Z.of_nat k).
Proof.
  intros H. do 6 (destruct k as [| k]; [reflexivity |]). lia.
Qed.

Lemma capped_expo_large (k : nat) : (6 <= k)%nat -> capped_expo k = 60.
Proof.
  intros H. unfold capped_expo.
  destruct (Qlt_bool _ 60) eqn:E; [| reflexivity].
  apply Qlt_bool_true in E. apply pow2_from_6 in H. lra.
Qed.

(** The generator yields the schedule, one value per send. *)
Lemma expo_send_after (k : nat) :
  expo_send (expo_after k) = (capped_expo k, expo_after (S k)).
Proof.
  destruct (le_lt_dec 6 k) as [Hge | Hlt].
  - rewrite (capped_expo_large k Hge). unfold expo_after.
    replace (Nat.min k 6) with 6%nat by lia.
    replace (Nat.min (S k) 6) with 6%nat by lia.
    reflexivity.
  - do 6 (destruct k as [| k]; [reflexivity |]). lia.
Qed.

Lemma expo_after_0 : expo 2 (3 # 2) (Some 60) = expo_after 0.
Proof. reflexivity. Qed.

Lemma capped_expo_le_60 (k : nat) : capped_expo k <= 60.
Proof.
  unfold capped_expo. destruct (Qlt_bool _ 60) eqn:E.
  - apply Qlt_bool_true in E. lra.
  - lra.
Qed.

Lemma capped_expo_mono (k : nat) : capped_expo k <= capped_expo (S k).
Proof.
  destruct (le_lt_dec 6 k) as [Hge | Hlt].
  - rewrite !capped_expo_large by lia. lra.
  - do 6 (destruct k as [| k]; [discriminate |]). lia.
Qed.

Lemma capped_expo_pos (k : nat) : 0 < capped_expo k.
Proof.
  destruct (le_lt_dec 6 k) as [Hge | Hlt].
  - rewrite capped_expo_large by lia. reflexivity.
  - do 6 (destruct k as [| k]; [reflexivity |]). lia.
Qed.

Lemma capped_expo_exponential (k : nat) :
  (3 # 2) * Qpower 2 (Z.of_nat k) < 60 ->
  capped_expo k = (3 # 2) * Qpower 2 (Z.of_nat k).
Proof.
  intros H. unfold capped_expo. apply Qlt_bool_true in H. now rewrite H.
Qed.

Lemma full_jitter_bounds (value u : Q) :
  0 <= value -> 0 <= u <= 1 ->
  0 <= 0 + (value - 0) * u <= value.
Proof. intros Hv [H0 H1]. split; nra. Qed.

End Schedule.

(** ** One round of [request_with_timeout] *)

Section Executor.

Variables (func : Callable) (args : list value) (timeout : value) (kwargs : Kwargs).

Lemma round_in_time (fuel : nat) (w : World) (deadline : option Q) :
  deadline_of timeout = Some deadline ->
  completes_within (func (ncalls w) args kwargs) deadline = true ->
  outcome (func (ncalls w) args kwargs) <> inr FuturesTimeoutError ->
  request_with_timeout (S fuel) func args timeout kwargs w
  = (Some (res_of_outcome (outcome (func (ncalls w) args kwargs))),
     after_round func args timeout kwargs w).
Proof.
  intros Hd Hin Hne. simpl. unfold future_result. simpl.
  rewrite Hd, Hin. unfold after_round. simpl.
  destruct (outcome (func (ncalls w) args kwargs)) as [r | e]; simpl; [reflexivity |].
  destruct e; try reflexivity. congruence.
Qed.

(** A round whose work is not done by the deadline is given up and the
    loop goes round again. *)
Lemma round_timed_out (fuel : nat) (w : World) (t : Q) :
  deadline_of timeout = Some (Some t) ->
  completes_within (func (ncalls w) args kwargs) (Some t) = false ->
  request_with_timeout (S fuel) func args timeout kwargs w
  = request_with_timeout fuel func args timeout kwargs
      (after_timeout func args timeout kwargs t w).
Proof.
  intros Hd Hin. simpl. unfold future_result. simpl.
  rewrite Hd, Hin. reflexivity.
Qed.

Lemma after_round_ncalls (w : World) :
  ncalls (after_round func args timeout kwargs w) = S (ncalls w).
Proof. reflexivity. Qed.

Lemma after_round_draws (w : World) :
  draws (after_round func args timeout kwargs w) = draws w.
Proof. reflexivity. Qed.

Lemma after_round_trace (w : World) :
  trace (after_round func args timeout kwargs w)
  = trace w ++ [EvCall (now w) args kwargs; EvWait timeout].
Proof. simpl. now rewrite <- app_assoc. Qed.

Lemma after_timeout_ncalls (t : Q) (w : World) :
  ncalls (after_timeout func args timeout kwargs t w) = S (ncalls w).
Proof. reflexivity. Qed.

Lemma after_timeout_trace (t : Q) (w : World) :
  trace (after_timeout func args timeout kwargs t w)
  = trace w
    ++ [EvCall (now w) args kwargs; EvWait timeout; EvTimedOut (now w + Qmax 0 t)].
Proof. simpl. now rewrite <- !app_assoc. Qed.

(** The next round starts when the worker of the abandoned one is done,
    not when the wait gave up. *)
Lemma after_timeout_now (t : Q) (w : World) :
  0 <= t -> t < runtime (func (ncalls w) args kwargs) ->
  now (after_timeout func args timeout kwargs t w)
  == now w + runtime (func (ncalls w) args kwargs).
Proof.
  intros H0 Hlt. simpl. unfold finish_time. simpl.
  rewrite (Q.max_r 0 t) by exact H0.
  rewrite Q.max_r; [reflexivity |]. lra.
Qed.

End Executor.

(** ** [retry] on a target that fails [N] times and then returns *)

Section RetryN.

Variable rng : nat -> Q.
Variable target : M Response.

Lemma backoff_delays_S (d N : nat) (k : nat) :
  map (fun j => 0 + (capped_expo (k + j) - 0) * rng (d + j)%nat) (seq 0 (S N))
  = (0 + (capped_expo k - 0) * rng d)
    :: map (fun j => 0 + (capped_expo (S k + j) - 0) * rng (S d + j)%nat) (seq 0 N).
Proof.
  simpl. rewrite !Nat.add_0_r. f_equal.
  rewrite <- seq_shift, map_map.
  apply map_ext. intros j. now rewrite !Nat.add_succ_r.
Qed.

Lemma retry_fails_then_returns (r : Response) (N : nat) :
  forall (c k : nat) (w : World) (f : nat),
    ncalls w = c ->
    (forall i w1, (i < N)%nat -> ncalls w1 = (c + i)%nat ->
       exists e w2, one_try target w1 (Raise e) w2 /\ isinstance e retryable = true) ->
    (forall w1, ncalls w1 = (c + N)%nat -> exists w2, one_try target w1 (Ret r) w2) ->
    exists w',
      retry rng (S (N + f)) retryable target (expo_after k) w = (Some (Ret r), w') /\
      ncalls w' = (c + S N)%nat /\
      draws w' = (draws w + N)%nat /\
      sleeps_of (trace w')
      = sleeps_of (trace w)
        ++ map (fun j => 0 + (capped_expo (k + j) - 0) * rng (draws w + j)%nat) (seq 0 N).
Proof.
  induction N as [| N IH]; intros c k w f Hc Hfail Hok.
  - destruct (Hok w) as (w2 & Ht & Hn & Hd & Hs); [lia |].
    exists w2. simpl. rewrite Ht. repeat split; [lia | lia |].
    now rewrite app_nil_r.
  - destruct (Hfail 0%nat w) as (e & w1 & (Ht & Hn & Hd & Hs) & He); [lia | lia |].
    set (seconds := 0 + (capped_expo k - 0) * rng (draws w1)).
    set (w3 := sleep seconds (count_draw w1)).
    destruct (IH (S c) (S k) w3 f) as (w' & Hr & Hn' & Hd' & Hs').
    + simpl. lia.
    + intros i wi Hi Hwi. apply (Hfail (S i)); lia.
    + intros wi Hwi. apply Hok. lia.
    + exists w'. split; [| split; [| split]].
      * change (S (S N + f)) with (S (S (N + f))).
        cbn [retry]. rewrite Ht, He, expo_send_after.
        unfold full_jitter, random_uniform. exact Hr.
      * lia.
      * rewrite Hd'. simpl. lia.
      * rewrite Hs'. rewrite backoff_delays_S.
        subst w3 seconds. simpl. rewrite sleeps_of_app, Hs. simpl.
        rewrite Hd. rewrite <- app_assoc. reflexivity.
Qed.

End RetryN.

(** ** One try of the two targets *)

Section Targets.

Variables (api_utils : Module) (create : Callable) (args : list value).

Lemma completion_target_raises (kwargs : Kwargs) (w : World) (e : exn) :
  outcome (create (ncalls w) args kwargs) = inr e ->
  one_try (completion_target create args kwargs) w (Raise e)
    (snd (call create args kwargs w)).
Proof.
  intros H. unfold one_try, completion_target, call. rewrite H. simpl.
  repeat split. rewrite sleeps_of_app. simpl. now rewrite app_nil_r.
Qed.

Lemma completion_target_returns (kwargs : Kwargs) (w : World) (r : Response) :
  outcome (create (ncalls w) args kwargs) = inl r ->
  r !! "error" = None ->
  one_try (completion_target create args kwargs) w (Ret r)
    (snd (call create args kwargs w)).
Proof.
  intros H Hr. unfold one_try, completion_target, call. rewrite H. simpl.
  rewrite (reclassify_clean _ _ Hr). simpl.
  repeat split. rewrite sleeps_of_app. simpl. now rewrite app_nil_r.
Qed.

Lemma after_round_sleeps (timeout : value) (kwargs : Kwargs) (w : World) :
  sleeps_of (trace (after_round create args timeout kwargs w)) = sleeps_of (trace w).
Proof. rewrite after_round_trace, sleeps_of_app. simpl. now rewrite app_nil_r. Qed.

Lemma chat_completion_target_raises (fuel : nat) (kwargs kwargs' : Kwargs)
    (timeout : value) (deadline : option Q) (w : World) (e : exn) :
  bind_request_with_timeout api_utils kwargs = inr (timeout, kwargs') ->
  deadline_of timeout = Some deadline ->
  completes_within (create (ncalls w) args kwargs') deadline = true ->
  outcome (create (ncalls w) args kwargs') = inr e ->
  e <> FuturesTimeoutError ->
  one_try (chat_completion_target api_utils create (S fuel) args kwargs) w
    (Raise e) (after_round create args timeout kwargs' w).
Proof.
  intros Hb Hd Hin Ho Hne. unfold one_try, chat_completion_target. rewrite Hb.
  rewrite (round_in_time _ _ _ _ _ _ deadline Hd Hin) by (rewrite Ho; congruence).
  rewrite Ho. simpl res_of_outcome. cbv iota beta.
  repeat split. apply after_round_sleeps.
Qed.

Lemma chat_completion_target_returns (fuel : nat) (kwargs kwargs' : Kwargs)
    (timeout : value) (deadline : option Q) (w : World) (r : Response) :
  bind_request_with_timeout api_utils kwargs = inr (timeout, kwargs') ->
  deadline_of timeout = Some deadline ->
  completes_within (create (ncalls w) args kwargs') deadline = true ->
  outcome (create (ncalls w) args kwargs') = inl r ->
  r !! "error" = None ->
  one_try (chat_completion_target api_utils create (S fuel) args kwargs) w
    (Ret r) (after_round create args timeout kwargs' w).
Proof.
  intros Hb Hd Hin Ho Hr. unfold one_try, chat_completion_target. rewrite Hb.
  rewrite (round_in_time _ _ _ _ _ _ deadline Hd Hin) by (rewrite Ho; congruence).
  rewrite Ho. simpl res_of_outcome. cbv iota beta.
  rewrite (reclassify_clean _ _ Hr).
  repeat split. apply after_round_sleeps.
Qed.

End Targets.

(** ** C2: retries under the backoff schedule *)

(** C2, as the code has it.  When the remote call raises an exception of the
    tuple [N] times and then returns a response without an ["error"] field
    (for the timeout-guarded wrapper: every one of these calls finishing by
    the deadline), either wrapper issues [N + 1] calls, sleeps [N] times and
    returns that response.  The sleep before retry number [k] is not the
    schedule value itself but [full_jitter] of it: a draw between 0 and
    [capped_expo k].  That bound is non-decreasing, equal to 1.5 * 2^k while
    this is below 60, and 60 from then on. *)
Theorem C2_retries_with_jittered_backoff (rng : nat -> Q) (api_utils : Module)
    (create : Callable) (args : list value) (kwargs : Kwargs) (w : World)
    (N : nat) (r : Response) :
  (fails_then_succeeds create args kwargs (ncalls w) N r ->
   forall f, exists w',
     openai_completion_create_retrying rng create (S (N + f)) args kwargs w
     = (Some (Ret r), w') /\
     ncalls w' = (ncalls w + S N)%nat /\
     sleeps_of (trace w') = sleeps_of (trace w) ++ backoff_delays rng (draws w) N) /\
  (forall timeout kwargs' deadline,
     bind_request_with_timeout api_utils kwargs = inr (timeout, kwargs') ->
     deadline_of timeout = Some deadline ->
     fails_then_succeeds create args kwargs' (ncalls w) N r ->
     all_in_time create args kwargs' (ncalls w) N deadline ->
     forall f, exists w',
       openai_chat_completion_create_retrying rng api_utils create (S (N + f)) args kwargs w
       = (Some (Ret r), w') /\
       ncalls w' = (ncalls w + S N)%nat /\
       sleeps_of (trace w') = sleeps_of (trace w) ++ backoff_delays rng (draws w) N) /\
  (forall k,
     capped_expo k <= capped_expo (S k) /\
     capped_expo k <= 60 /\
     ((3 # 2) * Qpower 2 (Z.of_nat k) < 60 ->
      capped_expo k = (3 # 2) * Qpower 2 (Z.of_nat k)) /\
     (60 <= (3 # 2) * Qpower 2 (Z.of_nat k) -> capped_expo k = 60)) /\
  ((forall i, 0 <= rng i <= 1) ->
   forall d k delay,
     backoff_delays rng d N !! k = Some delay -> 0 <= delay <= capped_expo k).
Proof.
  split; [| split; [| split]].
  - intros (Hfail & Hok & Hclean) f.
    unfold openai_completion_create_retrying, on_exception. rewrite expo_after_0.
    destruct (retry_fails_then_returns rng (completion_target create args kwargs)
                r N (ncalls w) 0%nat w f eq_refl) as (w' & Hr & Hn & _ & Hs).
    + intros i w1 Hi Hw1. destruct (Hfail i Hi) as (e & He & Hinst).
      rewrite <- Hw1 in He. eauto using completion_target_raises.
    + intros w1 Hw1. rewrite <- Hw1 in Hok. eauto using completion_target_returns.
    + exists w'. auto.
  - intros timeout kwargs' deadline Hb Hd (Hfail & Hok & Hclean) Hin f.
    unfold openai_chat_completion_create_retrying, on_exception. rewrite expo_after_0.
    destruct (retry_fails_then_returns rng
                (chat_completion_target api_utils create (S (N + f)) args kwargs)
                r N (ncalls w) 0%nat w f eq_refl) as (w' & Hr & Hn & _ & Hs).
    + intros i w1 Hi Hw1. destruct (Hfail i Hi) as (e & He & Hinst).
      specialize (Hin i ltac:(lia)). rewrite <- Hw1 in He, Hin.
      exists e, (after_round create args timeout kwargs' w1). split; [| exact Hinst].
      eapply chat_completion_target_raises; eauto.
      intros ->. discriminate.
    + intros w1 Hw1. specialize (Hin N ltac:(lia)). rewrite <- Hw1 in Hok, Hin.
      exists (after_round create args timeout kwargs' w1).
      eapply chat_completion_target_returns; eauto.
    + exists w'. auto.
  - intros k. repeat split.
    + apply capped_expo_mono.
    + apply capped_expo_le_60.
    + apply capped_expo_exponential.
    + intros H. unfold capped_expo.
      apply Qlt_bool_false in H. now rewrite H.
  - intros Hrng d k delay Hk. unfold backoff_delays in Hk.
    rewrite list_lookup_fmap in Hk.
    destruct (seq 0 N !! k) as [j |] eqn:Ej; [| discriminate].
    apply lookup_seq in Ej as [-> _]. simpl in Hk. injection Hk as <-.
    apply full_jitter_bounds; [| apply Hrng].
    apply Qlt_le_weak, capped_expo_pos.
Qed.

(** ** C3: exceptions outside the tuple *)

(** C3, as the code has it.  When the first call raises an exception that is
    not an instance of the tuple, the plain wrapper raises it at once: one
    call, no sleep.  The timeout-guarded wrapper does the same provided the
    call finishes by the deadline and the exception is not
    [concurrent.futures.TimeoutError], which line 62 catches whoever raised
    it. *)
Theorem C3_fatal_exception_propagates (rng : nat -> Q) (api_utils : Module)
    (create : Callable) (args : list value) (kwargs : Kwargs) (w : World)
    (e : exn) (Hfatal : isinstance e retryable = false) :
  (outcome (create (ncalls w) args kwargs) = inr e ->
   forall fuel, exists w',
     openai_completion_create_retrying rng create (S fuel) args kwargs w
     = (Some (Raise e), w') /\
     ncalls w' = S (ncalls w) /\
     sleeps_of (trace w') = sleeps_of (trace w)) /\
  (forall timeout kwargs' deadline,
     bind_request_with_timeout api_utils kwargs = inr (timeout, kwargs') ->
     deadline_of timeout = Some deadline ->
     outcome (create (ncalls w) args kwargs') = inr e ->
     completes_within (create (ncalls w) args kwargs') deadline = true ->
     e <> FuturesTimeoutError ->
     forall fuel, exists w',
       openai_chat_completion_create_retrying rng api_utils create (S fuel) args kwargs w
       = (Some (Raise e), w') /\
       ncalls w' = S (ncalls w) /\
       sleeps_of (trace w') = sleeps_of (trace w)).
Proof.
  split.
  - intros Ho fuel.
    destruct (completion_target_raises create args kwargs w e Ho) as (Ht & Hn & _ & Hs).
    eexists. split; [| split; [exact Hn | exact Hs]].
    unfold openai_completion_create_retrying, on_exception.
    now apply retry_first_fatal.
  - intros timeout kwargs' deadline Hb Hd Ho Hin Hne fuel.
    destruct (chat_completion_target_raises api_utils create args fuel kwargs kwargs'
                timeout deadline w e Hb Hd Hin Ho Hne) as (Ht & Hn & _ & Hs).
    eexists. split; [| split; [exact Hn | exact Hs]].
    unfold openai_chat_completion_create_retrying, on_exception.
    now apply retry_first_fatal.
Qed.

(** ** C4 and C5: what [request_with_timeout] returns and raises *)

(** C4. When the first two rounds run past the timeout and the third is done
    by it, [request_with_timeout] returns the result of the third round:
    three calls were issued, two waits gave up, and what the first two
    rounds would have produced plays no part. *)
Theorem C4_third_attempt_result (func : Callable) (args : list value)
    (t : Q) (kwargs : Kwargs) (w : World) (r : Response)
    (Hfirst : t < runtime (func (ncalls w) args kwargs))
    (Hsecond : t < runtime (func (S (ncalls w)) args kwargs))
    (Hthird : runtime (func (S (S (ncalls w))) args kwargs) <= t)
    (Hresult : outcome (func (S (S (ncalls w))) args kwargs) = inl r) :
  forall f, exists w',
    request_with_timeout (S (S (S f))) func args (VNum t) kwargs w = (Some (Ret r), w') /\
    ncalls w' = S (S (S (ncalls w))) /\
    calls_of (trace w') = calls_of (trace w) ++ replicate 3 (args, kwargs) /\
    length (timeouts_of (trace w')) = S (S (length (timeouts_of (trace w)))).
Proof.
  intros f.
  assert (Hout : forall b, t < runtime b -> completes_within b (Some t) = false).
  { intros b Hb. simpl. destruct (Qle_bool (runtime b) t) eqn:E; [| reflexivity].
    apply Qle_bool_iff in E. lra. }
  rewrite (round_timed_out func args (VNum t) kwargs _ w t eq_refl (Hout _ Hfirst)).
  set (w1 := after_timeout func args (VNum t) kwargs t w).
  rewrite (round_timed_out func args (VNum t) kwargs _ w1 t eq_refl (Hout _ Hsecond)).
  set (w2 := after_timeout func args (VNum t) kwargs t w1).
  assert (Hin : completes_within (func (ncalls w2) args kwargs) (Some t) = true).
  { simpl. apply Qle_bool_iff. exact Hthird. }
  rewrite (round_in_time func args (VNum t) kwargs f w2 (Some t) eq_refl Hin)
    by (change (ncalls w2) with (S (S (ncalls w))); rewrite Hresult; discriminate).
  change (ncalls w2) with (S (S (ncalls w))). rewrite Hresult.
  eexists. split; [reflexivity |]. split; [reflexivity |].
  rewrite after_round_trace. subst w2. rewrite after_timeout_trace.
  subst w1. rewrite after_timeout_trace.
  rewrite !calls_of_app, !timeouts_of_app, !length_app. simpl.
  split; [now rewrite <- !app_assoc | lia].
Qed.

(** C5. An exception that the callable raises within the deadline, other
    than [concurrent.futures.TimeoutError], leaves [request_with_timeout] in
    the round that saw it: the callable was called once and is not called
    again. *)
Theorem C5_callable_exception_propagates (func : Callable) (args : list value)
    (timeout : value) (kwargs : Kwargs) (w : World) (deadline : option Q) (e : exn)
    (Hdeadline : deadline_of timeout = Some deadline)
    (Hintime : completes_within (func (ncalls w) args kwargs) deadline = true)
    (Hraises : outcome (func (ncalls w) args kwargs) = inr e)
    (Hkind : e <> FuturesTimeoutError) :
  forall fuel, exists w',
    request_with_timeout (S fuel) func args timeout kwargs w = (Some (Raise e), w') /\
    ncalls w' = S (ncalls w) /\
    calls_of (trace w') = calls_of (trace w) ++ [(args, kwargs)] /\
    timeouts_of (trace w') = timeouts_of (trace w).
Proof.
  intros fuel.
  rewrite (round_in_time func args timeout kwargs fuel w deadline Hdeadline Hintime)
    by (rewrite Hraises; congruence).
  rewrite Hraises. eexists. split; [reflexivity |]. split; [reflexivity |].
  rewrite after_round_trace, calls_of_app, timeouts_of_app. simpl.
  now rewrite app_nil_r.
Qed.

(** ** C6: where a [Timeout] of the tuple can come from *)

Section Origin.

Variables (func : Callable) (args : list value) (timeout : value) (kwargs : Kwargs).

Lemma request_with_timeout_raise_inv (fuel : nat) :
  forall (w w' : World) (e : exn),
    request_with_timeout fuel func args timeout kwargs w = (Some (Raise e), w') ->
    e <> FuturesTimeoutError /\
    ((deadline_of timeout = None /\ exists msg, e = TypeError msg) \/
     exists i, (ncalls w <= i < ncalls w')%nat /\
               outcome (func i args kwargs) = inr e).
Proof.
  induction fuel as [| fuel IH]; intros w w' e H; [discriminate |].
  simpl in H. unfold future_result in H. simpl in H.
  destruct (deadline_of timeout) as [deadline |] eqn:Hd.
  - destruct (completes_within (func (ncalls w) args kwargs) deadline) eqn:Hin.
    + destruct (outcome (func (ncalls w) args kwargs)) as [r | e0] eqn:Ho;
        simpl in H; [discriminate |].
      destruct e0; try (injection H as <- <-; split; [discriminate |];
                        right; exists (ncalls w); simpl; split; [lia | exact Ho]).
      apply IH in H as (Hne & [Hty | (i & Hi & Hout)]); split; auto.
      right. exists i. split; [simpl in Hi; lia | exact Hout].
    + apply IH in H as (Hne & [Hty | (i & Hi & Hout)]); split; auto.
      right. exists i. split; [simpl in Hi; lia | exact Hout].
  - injection H as <- <-. split; [discriminate |]. left. eauto.
Qed.

End Origin.

Lemma chat_completion_target_raise_inv (api_utils : Module) (create : Callable)
    (fuel : nat) (args : list value) (kwargs : Kwargs) (w w' : World) (e : exn) :
  chat_completion_target api_utils create fuel args kwargs w = (Some (Raise e), w') ->
  e <> FuturesTimeoutError /\
  (isinstance e [Timeout] = true ->
   exists i, (ncalls w <= i < ncalls w')%nat /\
             outcome (create i args (delete "timeout" kwargs)) = inr e).
Proof.
  intros Htry. unfold chat_completion_target, bind_request_with_timeout in Htry.
  destruct (kwargs !! "func") as [v |] eqn:Hfunc.
  - injection Htry as <- <-. split; discriminate.
  - destruct (request_with_timeout fuel create args _ _ w) as [[[result | e0] |] w1] eqn:Hr;
      [| | discriminate].
    + unfold reclassify in Htry.
      destruct (result !! "error") as [payload |]; [| discriminate].
      injection Htry as <- <-. split; discriminate.
    + injection Htry as <- <-.
      apply request_with_timeout_raise_inv in Hr as (Hne & Horigin).
      split; [exact Hne |].
      intros Hinst. destruct Horigin as [(_ & msg & ->) | Horigin]; [discriminate |].
      exact Horigin.
Qed.

(** C6. No [concurrent.futures.TimeoutError] ever leaves
    [request_with_timeout]: a wait that gives up is answered by another
    round of the loop.  So whenever one try of the timeout-guarded wrapper
    raises an instance of [openai_error.Timeout], which is what makes
    [backoff] retry on a timeout, that very exception was raised by one of
    the remote calls of the try. *)
Theorem C6_timeout_comes_from_remote_call (api_utils : Module) (create : Callable)
    (fuel : nat) (args : list value) (kwargs : Kwargs) (w w' : World) (e : exn)
    (Htry : chat_completion_target api_utils create fuel args kwargs w
            = (Some (Raise e), w')) :
  e <> FuturesTimeoutError /\
  (isinstance e [Timeout] = true ->
   exists i, (ncalls w <= i < ncalls w')%nat /\
             outcome (create i args (delete "timeout" kwargs)) = inr e) /\
  (forall timeout kwargs' t w0 fuel0,
     deadline_of timeout = Some (Some t) ->
     completes_within (create (ncalls w0) args kwargs') (Some t) = false ->
     request_with_timeout (S fuel0) create args timeout kwargs' w0
     = request_with_timeout fuel0 create args timeout kwargs'
         (after_timeout create args timeout kwargs' t w0)).
Proof.
  apply chat_completion_target_raise_inv in Htry as (Hne & Horigin).
  split; [exact Hne |]. split; [exact Horigin |].
  intros timeout kwargs' t w0 fuel0 Hd Hc. now apply round_timed_out.
Qed.

(** ** C7: when the next round starts *)

(** C7, on a run.  The callable takes 100 seconds on its first call and the
    timeout is 40: the wait gives up at second 40 and the second call starts
    at second 100, when the worker of the first has finished, not at
    second 40. *)
Theorem C7_next_round_waits_for_abandoned_worker :
  exists w',
    request_with_timeout 2 (ex_slow 1) [] (VNum 40) ex_no_kwargs ex_world
    = (Some (Ret ex_ok), w') /\
    timeouts_of (trace w') = [40] /\
    call_times_of (trace w') = [0; 100] /\
    now w' = 101.
Proof. eexists. vm_compute. repeat split. Qed.

(** ** What a run leaves in the trace *)

Section Traces.

Variable rng : nat -> Q.

Lemma request_with_timeout_events (func : Callable) (args : list value)
    (timeout : value) (kwargs : Kwargs) (fuel : nat) :
  forall w : World,
    exists evs,
      trace (snd (request_with_timeout fuel func args timeout kwargs w)) = trace w ++ evs /\
      Forall (guarded_event args kwargs timeout) evs /\
      (fuel <> 0%nat -> calls_of evs <> [] /\ waits_of evs <> []).
Proof.
  induction fuel as [| fuel IH]; intros w.
  { exists []. simpl. rewrite app_nil_r. repeat split; [constructor | congruence ..]. }
  simpl. unfold future_result. simpl.
  assert (Hloop : forall w1 more,
            trace w1 = (trace w ++ [EvCall (now w) args kwargs]) ++ EvWait timeout :: more ->
            Forall (guarded_event args kwargs timeout) more ->
            exists evs,
              trace (snd (request_with_timeout fuel func args timeout kwargs w1))
              = trace w ++ evs /\
              Forall (guarded_event args kwargs timeout) evs /\
              (S fuel <> 0%nat -> calls_of evs <> [] /\ waits_of evs <> [])).
  { intros w1 more Hw1 Hmore.
    destruct (IH w1) as (evs & Ht & Hall & _).
    exists (EvCall (now w) args kwargs :: EvWait timeout :: more ++ evs).
    split; [| split; [| split; discriminate]].
    - rewrite Ht, Hw1. rewrite <- !app_assoc. reflexivity.
    - repeat constructor; simpl; auto. apply Forall_app; auto. }
  assert (Hstop : forall tr,
            tr = (trace w ++ [EvCall (now w) args kwargs]) ++ [EvWait timeout] ->
            exists evs,
              tr = trace w ++ evs /\
              Forall (guarded_event args kwargs timeout) evs /\
              (S fuel <> 0%nat -> calls_of evs <> [] /\ waits_of evs <> [])).
  { intros tr Hw1.
    exists [EvCall (now w) args kwargs; EvWait timeout].
    split; [| split; [| split; discriminate]].
    - rewrite Hw1, <- app_assoc. reflexivity.
    - repeat constructor; simpl; auto. }
  destruct (deadline_of timeout) as [deadline |].
  - destruct (completes_within (func (ncalls w) args kwargs) deadline).
    + destruct (outcome (func (ncalls w) args kwargs)) as [r | e]; simpl.
      * apply Hstop. reflexivity.
      * destruct e; try (apply Hstop; reflexivity).
        apply (Hloop _ []); [reflexivity | constructor].
    + apply (Hloop _ [EvTimedOut (now w + Qmax 0 (default 0 deadline))]).
      * simpl. rewrite <- !app_assoc. reflexivity.
      * repeat constructor.
  - apply Hstop. reflexivity.
Qed.

Lemma chat_completion_target_events (api_utils : Module) (create : Callable)
    (fuel : nat) (args : list value) (kwargs : Kwargs) (w : World) :
  kwargs !! "func" = None ->
  exists evs,
    trace (snd (chat_completion_target api_utils create fuel args kwargs w))
    = trace w ++ evs /\
    Forall (guarded_event args (delete "timeout" kwargs)
              (default (VNum (EVALS_THREAD_TIMEOUT api_utils)) (kwargs !! "timeout"))) evs /\
    (fuel <> 0%nat -> calls_of evs <> [] /\ waits_of evs <> []).
Proof.
  intros Hfunc. unfold chat_completion_target, bind_request_with_timeout.
  rewrite Hfunc.
  destruct (request_with_timeout_events create args
              (default (VNum (EVALS_THREAD_TIMEOUT api_utils)) (kwargs !! "timeout"))
              (delete "timeout" kwargs) fuel w) as (evs & Ht & Hall & Hne).
  destruct (request_with_timeout fuel create args _ _ w) as [[[result | e] |] w1];
    simpl in Ht; [| eauto ..].
  unfold reclassify. destruct (result !! "error"); simpl; [| eauto].
  exists (evs ++ [EvWarn result]). split; [| split].
  - rewrite Ht, <- app_assoc. reflexivity.
  - apply Forall_app. split; [exact Hall | repeat constructor].
  - intros Hfuel. destruct (Hne Hfuel) as [Hc Hw].
    rewrite calls_of_app, waits_of_app. simpl. now rewrite !app_nil_r.
Qed.

(** The loop of [backoff] adds nothing but sleeps to what its target
    leaves in the trace. *)
Lemma retry_events (P : event -> Prop) (exception : list ErrorKind)
    (target : M Response)
    (Hsleep : forall s, P (EvSleep s))
    (Htarget : forall w, exists evs,
                 trace (snd (target w)) = trace w ++ evs /\ Forall P evs /\
                 calls_of evs <> [] /\ waits_of evs <> [])
    (fuel : nat) :
  forall (wait : expo_state) (w : World),
    exists evs,
      trace (snd (retry rng fuel exception target wait w)) = trace w ++ evs /\
      Forall P evs /\
      (fuel <> 0%nat -> calls_of evs <> [] /\ waits_of evs <> []).
Proof.
  induction fuel as [| fuel IH]; intros wait w.
  { exists []. simpl. rewrite app_nil_r. repeat split; [constructor | congruence ..]. }
  simpl. destruct (Htarget w) as (evs1 & Ht1 & Hall1 & Hc1 & Hw1).
  destruct (target w) as [[[ret | e] |] w1]; simpl in Ht1; [eauto | | eauto].
  destruct (isinstance e exception); [| eauto].
  destruct (expo_send wait) as [v wait']. simpl.
  destruct (IH wait' (sleep (0 + (v - 0) * rng (draws w1)) (count_draw w1)))
    as (evs2 & Ht2 & Hall2 & _).
  exists (evs1 ++ EvSleep (0 + (v - 0) * rng (draws w1)) :: evs2).
  split; [| split; [| split]].
  - rewrite Ht2. simpl. rewrite Ht1, <- !app_assoc. reflexivity.
  - apply Forall_app. split; [exact Hall1 |]. constructor; auto.
  - rewrite calls_of_app. intros Hnil. apply app_eq_nil in Hnil as [Hnil _]. auto.
  - rewrite waits_of_app. intros Hnil. apply app_eq_nil in Hnil as [Hnil _]. auto.
Qed.

Lemma openai_chat_completion_create_retrying_events (api_utils : Module)
    (create : Callable) (fuel : nat) (args : list value) (kwargs : Kwargs)
    (w : World) :
  kwargs !! "func" = None ->
  exists evs,
    trace (snd (openai_chat_completion_create_retrying rng api_utils create fuel
                  args kwargs w))
    = trace w ++ evs /\
    Forall (guarded_event args (delete "timeout" kwargs)
              (default (VNum (EVALS_THREAD_TIMEOUT api_utils)) (kwargs !! "timeout"))) evs /\
    (fuel <> 0%nat -> calls_of evs <> [] /\ waits_of evs <> []).
Proof.
  intros Hfunc. unfold openai_chat_completion_create_retrying, on_exception.
  destruct fuel as [| fuel].
  { exists []. simpl. rewrite app_nil_r. repeat split; [constructor | congruence ..]. }
  apply retry_events; [intros s; exact I |].
  intros w1.
  destruct (chat_completion_target_events api_utils create (S fuel) args kwargs w1 Hfunc)
    as (evs & Ht & Hall & Hne).
  exists evs. destruct Hne as [Hc Hw]; [congruence |]. auto.
Qed.

End Traces.

(** ** More fuel does not change a result *)

Section Fuel.

Variable rng : nat -> Q.

Lemma request_with_timeout_more_fuel (func : Callable) (args : list value)
    (timeout : value) (kwargs : Kwargs) (extra fuel : nat) :
  forall (w w' : World) (x : res Response),
    request_with_timeout fuel func args timeout kwargs w = (Some x, w') ->
    request_with_timeout (fuel + extra) func args timeout kwargs w = (Some x, w').
Proof.
  induction fuel as [| fuel IH]; intros w w' x H; [discriminate |].
  simpl in *.
  destruct (future_result _ timeout _) as [r w2].
  destruct r as [ret | e]; [exact H |].
  destruct e; try exact H. now apply IH.
Qed.

Lemma chat_completion_target_more_fuel (api_utils : Module) (create : Callable)
    (args : list value) (kwargs : Kwargs) (extra fuel : nat)
    (w w' : World) (x : res Response) :
  chat_completion_target api_utils create fuel args kwargs w = (Some x, w') ->
  chat_completion_target api_utils create (fuel + extra) args kwargs w = (Some x, w').
Proof.
  unfold chat_completion_target.
  destruct (bind_request_with_timeout api_utils kwargs) as [e | [timeout kwargs']];
    [trivial |].
  destruct (request_with_timeout fuel create args timeout kwargs' w)
    as [[r |] w1] eqn:Hr; [| discriminate].
  rewrite (request_with_timeout_more_fuel _ _ _ _ extra _ _ _ _ Hr). trivial.
Qed.

Lemma retry_more_fuel (exception : list ErrorKind) (target target' : M Response)
    (Hext : forall w w' x, target w = (Some x, w') -> target' w = (Some x, w'))
    (extra fuel : nat) :
  forall (wait : expo_state) (w w' : World) (x : res Response),
    retry rng fuel exception target wait w = (Some x, w') ->
    retry rng (fuel + extra) exception target' wait w = (Some x, w').
Proof.
  induction fuel as [| fuel IH]; intros wait w w' x H; [discriminate |].
  simpl in *.
  destruct (target w) as [[r |] w1] eqn:Ht; [| discriminate].
  rewrite (Hext _ _ _ Ht).
  destruct r as [ret | e]; [exact H |].
  destruct (isinstance e exception); [| exact H].
  destruct (expo_send wait) as [v wait']. simpl in *. now apply IH.
Qed.

Lemma openai_completion_create_retrying_more_fuel (create : Callable)
    (args : list value) (kwargs : Kwargs) (extra fuel : nat)
    (w w' : World) (x : res Response) :
  openai_completion_create_retrying rng create fuel args kwargs w = (Some x, w') ->
  openai_completion_create_retrying rng create (fuel + extra) args kwargs w
  = (Some x, w').
Proof. apply retry_more_fuel. trivial. Qed.

Lemma openai_chat_completion_create_retrying_more_fuel (api_utils : Module)
    (create : Callable) (args : list value) (kwargs : Kwargs) (extra fuel : nat)
    (w w' : World) (x : res Response) :
  openai_chat_completion_create_retrying rng api_utils create fuel args kwargs w
  = (Some x, w') ->
  openai_chat_completion_create_retrying rng api_utils create (fuel + extra) args kwargs w
  = (Some x, w').
Proof.
  apply retry_more_fuel. intros w1 w2 x1.
  apply chat_completion_target_more_fuel.
Qed.

End Fuel.

(** ** C8: the default timeout *)


(** *** [float] on the decimal literal of an integer *)

Section Literals.

Lemma digit_char_not_space (d : nat) : (d < 10)%nat -> is_space (digit_char d) = false.
Proof. intros H. do 10 (destruct d as [| d]; [reflexivity |]). lia. Qed.

Lemma digit_of_digit_char (d : nat) :
  (d < 10)%nat -> digit_of (digit_char d) = Some (Z.of_nat d).
Proof. intros H. do 10 (destruct d as [| d]; [reflexivity |]). lia. Qed.

Lemma take_sign_digit_char (d : nat) (l : list ascii) :
  (d < 10)%nat -> take_sign (digit_char d :: l) = (false, digit_char d :: l).
Proof. intros H. do 10 (destruct d as [| d]; [reflexivity |]). lia. Qed.

Lemma lstrip_digits (ds : list nat) :
  Forall (fun d => (d < 10)%nat) ds -> lstrip (map digit_char ds) = map digit_char ds.
Proof.
  intros Hds. destruct Hds as [| d ds Hd _]; [reflexivity |].
  cbn [map lstrip]. now rewrite digit_char_not_space.
Qed.

Lemma strip_digits (ds : list nat) :
  Forall (fun d => (d < 10)%nat) ds -> strip (map digit_char ds) = map digit_char ds.
Proof.
  intros Hds. unfold strip. rewrite (lstrip_digits ds Hds).
  change (map digit_char ds) with (digit_char <$> ds).
  rewrite <- fmap_reverse.
  change (digit_char <$> reverse ds) with (map digit_char (reverse ds)).
  rewrite lstrip_digits by now apply Forall_reverse.
  change (map digit_char (reverse ds)) with (digit_char <$> reverse ds).
  now rewrite fmap_reverse, reverse_involutive.
Qed.

Lemma take_digits_digits (ds : list nat) :
  Forall (fun d => (d < 10)%nat) ds ->
  take_digits (map digit_char ds) = (map Z.of_nat ds, []).
Proof.
  induction 1 as [| d ds Hd _ IH]; [reflexivity |].
  cbn [map take_digits]. now rewrite (digit_of_digit_char d Hd), IH.
Qed.

Lemma Z_of_digits_from (ds : list Z) (acc : Z) :
  (0 <= acc)%Z -> Forall (fun d => (0 <= d)%Z) ds ->
  (0 <= fold_left (fun a d => 10 * a + d) ds acc)%Z.
Proof.
  intros Hacc Hds. revert acc Hacc.
  induction Hds as [| d ds Hd _ IH]; intros acc Hacc; [exact Hacc |].
  cbn [fold_left]. apply IH. lia.
Qed.

Lemma Z_of_digits_nonneg (ds : list nat) : (0 <= Z_of_digits (map Z.of_nat ds))%Z.
Proof.
  apply Z_of_digits_from; [lia |].
  apply Forall_forall. intros d Hd. apply list_elem_of_In, in_map_iff in Hd as (n & <- & _).
  lia.
Qed.

Lemma Qred_integer (z : Z) : Qred (inject_Z z * Qpower 10 (0 - Z.of_nat 0)) = inject_Z z.
Proof.
  change (Qpower 10 (0 - Z.of_nat 0)) with 1.
  unfold Qmult, inject_Z. cbn [Qnum Qden]. rewrite Z.mul_1_r.
  change (1 * 1)%positive with 1%positive.
  apply Qcanon.Qred_identity. cbn [Qnum Qden]. apply Z.gcd_1_r.
Qed.

(** [float] on the decimal literal of an integer of at most 53 bits is that
    integer. *)
Lemma float_decimal_literal (ds : list nat) :
  ds <> [] ->
  Forall (fun d => (d < 10)%nat) ds ->
  (Z_of_digits (map Z.of_nat ds) <= 2 ^ 53)%Z ->
  float (decimal_literal ds) = Some (inject_Z (Z_of_digits (map Z.of_nat ds))).
Proof.
  intros Hne Hds Hbound. unfold float, decimal_literal.
  rewrite list_ascii_of_string_of_list_ascii, (strip_digits ds Hds).
  destruct ds as [| d ds]; [congruence |].
  pose proof (Z_of_digits_nonneg (d :: ds)) as Hpos.
  pose proof (take_digits_digits (d :: ds) Hds) as Htake.
  inversion Hds as [| ? ? Hd _]; subst.
  cbn [map] in Htake |- *. rewrite (take_sign_digit_char d _ Hd), Htake.
  cbv beta iota zeta. rewrite app_nil_r.
  change (take_exponent []) with (Some (0%Z, @nil ascii)).
  cbv beta iota zeta. cbn [length].
  change (Z.of_nat d :: map Z.of_nat ds) with (map Z.of_nat (d :: ds)) in *.
  rewrite Qred_integer.
  unfold exact_double. cbn [inject_Z Qnum Qden is_power_of_two].
  rewrite Z.abs_eq by exact Hpos.
  apply Z.leb_le in Hbound. rewrite Hbound. reflexivity.
Qed.

End Literals.

Lemma default_timeout_from_setting (q : Q) (w0 : World) :
  float (environ_get w0 "EVALS_THREAD_TIMEOUT" "40") = Some q ->
  import_api_utils w0 = Some (mkModule q) /\ default_timeout_is q w0.
Proof.
  intros Hq.
  assert (Himport : import_api_utils w0 = Some (mkModule q)).
  { unfold import_api_utils. now rewrite Hq. }
  split; [exact Himport |].
  intros rng create fuel args kwargs w Ht Hf.
  unfold import_then_call. rewrite Himport.
  destruct (openai_chat_completion_create_retrying_events rng (mkModule q) create fuel
              args kwargs w Hf) as (evs & Htr & Hall & Hne).
  rewrite Ht in Hall. cbn [default EVALS_THREAD_TIMEOUT] in Hall.
  rewrite delete_id in Hall by exact Ht.
  eexists _, evs. split; [reflexivity |]. split; [exact Htr |]. split; [exact Hall |].
  intros Hfuel. now apply Hne.
Qed.

(** C8. The constant [EVALS_THREAD_TIMEOUT] is read from the one setting of
    that name in the environment of the import: with the setting absent it
    is 40, with the setting a decimal integer literal it is that integer,
    and in general it is [float] of the setting; two environments that agree
    on the setting give the same import.  Every later call of the
    timeout-guarded wrapper without a [timeout] keyword hands the constant
    to each of its waits, whatever the environment holds by then and
    however far the run gets. *)
Theorem C8_default_timeout (w0 : World) :
  (environ w0 !! "EVALS_THREAD_TIMEOUT" = None ->
   import_api_utils w0 = Some (mkModule 40) /\ default_timeout_is 40 w0) /\
  (forall ds,
     ds <> [] -> Forall (fun d => (d < 10)%nat) ds ->
     (Z_of_digits (map Z.of_nat ds) <= 2 ^ 53)%Z ->
     environ w0 !! "EVALS_THREAD_TIMEOUT" = Some (decimal_literal ds) ->
     default_timeout_is (inject_Z (Z_of_digits (map Z.of_nat ds))) w0) /\
  (forall s q,
     environ w0 !! "EVALS_THREAD_TIMEOUT" = Some s -> float s = Some q ->
     import_api_utils w0 = Some (mkModule q) /\ default_timeout_is q w0) /\
  (forall w1,
     environ w1 !! "EVALS_THREAD_TIMEOUT" = environ w0 !! "EVALS_THREAD_TIMEOUT" ->
     import_api_utils w1 = import_api_utils w0).
Proof.
  split; [| split; [| split]].
  - intros Hunset. apply default_timeout_from_setting.
    unfold environ_get. rewrite Hunset. reflexivity.
  - intros ds Hne Hds Hbound Hset. apply default_timeout_from_setting.
    unfold environ_get. rewrite Hset. cbn [default].
    now apply float_decimal_literal.
  - intros s q Hset Hq. apply default_timeout_from_setting.
    unfold environ_get. now rewrite Hset.
  - intros w1 Hsame. unfold import_api_utils, environ_get. now rewrite Hsame.
Qed.

(** ** C9: only the top-level key counts *)

(** C9. In both wrappers a response that the remote call returned is
    reclassified by its own key ["error"] and nothing else: without that key
    the try returns the response itself, whatever its values hold; with it
    the try raises [APIError] on exactly the value stored there. *)
Theorem C9_top_level_error_key (api_utils : Module) (create : Callable)
    (args : list value) (kwargs : Kwargs) (w : World) (result : Response) :
  (outcome (create (ncalls w) args kwargs) = inl result ->
   fst (completion_target create args kwargs w) = Some (reclassified result)) /\
  (forall fuel timeout kwargs' deadline,
     bind_request_with_timeout api_utils kwargs = inr (timeout, kwargs') ->
     deadline_of timeout = Some deadline ->
     completes_within (create (ncalls w) args kwargs') deadline = true ->
     outcome (create (ncalls w) args kwargs') = inl result ->
     fst (chat_completion_target api_utils create (S fuel) args kwargs w)
     = Some (reclassified result)) /\
  (result !! "error" = None -> reclassified result = Ret result) /\
  (forall payload, result !! "error" = Some payload ->
                   reclassified result = Raise (OpenAIError APIError payload)).
Proof.
  split; [| split; [| split]].
  - intros Ho. unfold completion_target, call. rewrite Ho. simpl.
    unfold reclassify, reclassified. destruct (result !! "error"); reflexivity.
  - intros fuel timeout kwargs' deadline Hb Hd Hin Ho.
    unfold chat_completion_target. rewrite Hb.
    rewrite (round_in_time _ _ _ _ _ _ deadline Hd Hin) by (rewrite Ho; discriminate).
    rewrite Ho. simpl.
    unfold reclassify, reclassified. destruct (result !! "error"); reflexivity.
  - intros H. unfold reclassified. now rewrite H.
  - intros payload H. unfold reclassified. now rewrite H.
Qed.

(** ** C10: the [timeout] keyword *)

(** C10, as the code has it.  When the timeout-guarded wrapper is called
    with a keyword [timeout] and no keyword [func], every wait of the run is
    given the value of [timeout], and every remote call of the run receives
    the positional arguments and the keywords without [timeout], all other
    keywords unchanged.  This holds of the run as far as it has got, also
    when it never leaves its loops. *)
Theorem C10_timeout_keyword_consumed (rng : nat -> Q) (api_utils : Module)
    (create : Callable) (fuel : nat) (args : list value) (kwargs : Kwargs)
    (tv : value) (w : World)
    (Htimeout : kwargs !! "timeout" = Some tv)
    (Hfunc : kwargs !! "func" = None) :
  exists (forwarded : Kwargs) evs,
    trace (snd (openai_chat_completion_create_retrying rng api_utils create fuel
                  args kwargs w))
    = trace w ++ evs /\
    Forall (guarded_event args forwarded tv) evs /\
    (fuel <> 0%nat -> calls_of evs <> [] /\ waits_of evs <> []) /\
    forwarded !! "timeout" = None /\
    (forall key, key <> "timeout" -> forwarded !! key = kwargs !! key).
Proof.
  destruct (openai_chat_completion_create_retrying_events rng api_utils create fuel
              args kwargs w Hfunc) as (evs & Htr & Hall & Hne).
  rewrite Htimeout in Hall. simpl in Hall.
  exists (delete "timeout" kwargs), evs.
  split; [exact Htr |]. split; [exact Hall |]. split; [exact Hne |]. split.
  - apply lookup_delete_eq.
  - intros key Hkey. now apply lookup_delete_ne.
Qed.

(** ** Sample runs of the theorems above *)

Lemma C1_witness :
  outcome (ex_returns ex_rate_limited 0%nat [] ex_no_kwargs) = inl ex_rate_limited /\
  fst (completion_target (ex_returns ex_rate_limited) [] ex_no_kwargs ex_world)
  = Some (Raise (OpenAIError APIError (VDict {[ "message" := VStr "rate limited" ]}))) /\
  warnings_of (trace (snd (completion_target (ex_returns ex_rate_limited) []
                             ex_no_kwargs ex_world)))
  = warnings_of (trace ex_world) ++ [ex_rate_limited].
Proof.
  destruct (C1_plain_embedded_error ex_rng (ex_returns ex_rate_limited) [] ex_no_kwargs
              ex_world ex_rate_limited eq_refl) as (_ & Hwarn & Hpayload & _).
  split; [reflexivity |]. split.
  - apply Hpayload. reflexivity.
  - apply Hwarn. eexists. reflexivity.
Defined.

Lemma ex_flaky_fails_then_succeeds (kwargs : Kwargs) :
  fails_then_succeeds ex_flaky [] kwargs 0 2 ex_ok.
Proof.
  split; [| split; reflexivity].
  intros i Hi. exists (OpenAIError RateLimitError VNone).
  destruct i as [| [| i]]; [split; reflexivity .. | lia].
Defined.

Lemma C2_witness :
  fails_then_succeeds ex_flaky [] ex_no_kwargs 0 2 ex_ok /\
  (exists w',
     openai_completion_create_retrying ex_rng ex_flaky 3 [] ex_no_kwargs ex_world
     = (Some (Ret ex_ok), w') /\
     ncalls w' = 3%nat /\
     sleeps_of (trace w') = backoff_delays ex_rng 0 2) /\
  (exists w',
     openai_chat_completion_create_retrying ex_rng ex_api_utils ex_flaky 3 [] ex_no_kwargs ex_world
     = (Some (Ret ex_ok), w') /\
     ncalls w' = 3%nat /\
     sleeps_of (trace w') = backoff_delays ex_rng 0 2).
Proof.
  destruct (C2_retries_with_jittered_backoff ex_rng ex_api_utils ex_flaky [] ex_no_kwargs
              ex_world 2 ex_ok) as (Hplain & Hchat & _ & _).
  split; [apply ex_flaky_fails_then_succeeds |]. split.
  - exact (Hplain (ex_flaky_fails_then_succeeds ex_no_kwargs) 0%nat).
  - refine (Hchat (VNum 40) ex_no_kwargs (Some 40) eq_refl eq_refl
              (ex_flaky_fails_then_succeeds ex_no_kwargs) _ 0%nat).
    intros i Hi. destruct i as [| [| i]]; reflexivity.
Defined.

Lemma C3_witness :
  isinstance (OtherError "ValueError") retryable = false /\
  (exists w',
     openai_completion_create_retrying ex_rng
       (ex_raises_once (OtherError "ValueError")) 1 [] ex_no_kwargs ex_world
     = (Some (Raise (OtherError "ValueError")), w') /\
     ncalls w' = 1%nat /\ sleeps_of (trace w') = []) /\
  (exists w',
     openai_chat_completion_create_retrying ex_rng ex_api_utils
       (ex_raises_once (OtherError "ValueError")) 1 [] ex_no_kwargs ex_world
     = (Some (Raise (OtherError "ValueError")), w') /\
     ncalls w' = 1%nat /\ sleeps_of (trace w') = []).
Proof.
  destruct (C3_fatal_exception_propagates ex_rng ex_api_utils
              (ex_raises_once (OtherError "ValueError")) [] ex_no_kwargs ex_world
              (OtherError "ValueError") eq_refl) as (Hplain & Hchat).
  split; [reflexivity |]. split.
  - exact (Hplain eq_refl 0%nat).
  - refine (Hchat (VNum 40) ex_no_kwargs (Some 40) eq_refl eq_refl eq_refl eq_refl _ 0%nat).
    discriminate.
Defined.

Lemma C4_witness :
  exists w',
    request_with_timeout 3 (ex_slow 2) [] (VNum 40) ex_no_kwargs ex_world
    = (Some (Ret ex_ok), w') /\
    ncalls w' = 3%nat /\
    calls_of (trace w') = replicate 3 ([], ex_no_kwargs) /\
    length (timeouts_of (trace w')) = 2%nat.
Proof.
  refine (C4_third_attempt_result (ex_slow 2) [] 40 ex_no_kwargs ex_world ex_ok
            _ _ _ eq_refl 0%nat).
  - reflexivity.
  - reflexivity.
  - vm_compute. discriminate.
Defined.

Lemma C5_witness :
  exists w',
    request_with_timeout 1 (ex_raises_once (OtherError "ValueError")) [] (VNum 40)
      ex_no_kwargs ex_world
    = (Some (Raise (OtherError "ValueError")), w') /\
    ncalls w' = 1%nat /\
    calls_of (trace w') = [([], ex_no_kwargs)] /\
    timeouts_of (trace w') = [].
Proof.
  refine (C5_callable_exception_propagates (ex_raises_once (OtherError "ValueError"))
            [] (VNum 40) ex_no_kwargs ex_world (Some 40) (OtherError "ValueError")
            eq_refl eq_refl eq_refl _ 0%nat).
  discriminate.
Defined.

Lemma C6_witness :
  chat_completion_target ex_api_utils
    (ex_raises_once (OpenAIError Timeout (VStr "Request timed out"))) 1 [] ex_no_kwargs ex_world
  = (Some (Raise (OpenAIError Timeout (VStr "Request timed out"))),
          after_round (ex_raises_once (OpenAIError Timeout (VStr "Request timed out")))
            [] (VNum 40) ex_no_kwargs ex_world) /\
  exists i, (0 <= i < 1)%nat /\
    outcome (ex_raises_once (OpenAIError Timeout (VStr "Request timed out")) i [] ex_no_kwargs)
    = inr (OpenAIError Timeout (VStr "Request timed out")).
Proof.
  split; [reflexivity |].
  destruct (C6_timeout_comes_from_remote_call ex_api_utils
              (ex_raises_once (OpenAIError Timeout (VStr "Request timed out")))
              1 [] ex_no_kwargs ex_world
              (after_round (ex_raises_once (OpenAIError Timeout (VStr "Request timed out")))
                 [] (VNum 40) ex_no_kwargs ex_world)
              (OpenAIError Timeout (VStr "Request timed out")) ltac:(vm_compute; reflexivity))
    as (_ & Horigin & _).
  exact (Horigin eq_refl).
Defined.

Lemma C8_witness :
  environ ex_world !! "EVALS_THREAD_TIMEOUT" = None /\
  import_api_utils ex_world = Some (mkModule 40) /\
  (exists run evs,
     import_then_call ex_rng ex_world (ex_returns ex_ok) 1 [] ex_no_kwargs ex_world
     = Some run /\
     trace (snd run) = trace ex_world ++ evs /\
     Forall (guarded_event [] ex_no_kwargs (VNum 40)) evs /\
     (1%nat <> 0%nat -> waits_of evs <> [])) /\
  import_api_utils (ex_world_with "2.5") = Some (mkModule (5 # 2)) /\
  (exists run evs,
     import_then_call ex_rng (ex_world_with "2.5") (ex_returns ex_ok) 1 [] ex_no_kwargs
       ex_world
     = Some run /\
     trace (snd run) = trace ex_world ++ evs /\
     Forall (guarded_event [] ex_no_kwargs (VNum (5 # 2))) evs /\
     (1%nat <> 0%nat -> waits_of evs <> [])) /\
  (exists run evs,
     import_then_call ex_rng (ex_world_with (decimal_literal [3; 0]%nat))
       (ex_returns ex_ok) 1 [] ex_no_kwargs ex_world
     = Some run /\
     trace (snd run) = trace ex_world ++ evs /\
     Forall (guarded_event [] ex_no_kwargs (VNum 30)) evs /\
     (1%nat <> 0%nat -> waits_of evs <> [])).
Proof.
  destruct (C8_default_timeout ex_world) as (Hunset & _ & _ & _).
  destruct (C8_default_timeout (ex_world_with "2.5")) as (_ & _ & Hset & _).
  destruct (C8_default_timeout (ex_world_with (decimal_literal [3; 0]%nat)))
    as (_ & Hliteral & _ & _).
  destruct (Hunset eq_refl) as [Himport40 Hwaits40].
  destruct (Hset "2.5"%string (5 # 2) eq_refl eq_refl) as [Himport25 Hwaits25].
  split; [reflexivity |]. split; [exact Himport40 |].
  split; [exact (Hwaits40 ex_rng (ex_returns ex_ok) 1%nat [] ex_no_kwargs ex_world
                   eq_refl eq_refl) |].
  split; [exact Himport25 |].
  split; [exact (Hwaits25 ex_rng (ex_returns ex_ok) 1%nat [] ex_no_kwargs ex_world
                   eq_refl eq_refl) |].
  refine (Hliteral [3; 0]%nat _ _ _ eq_refl ex_rng (ex_returns ex_ok) 1%nat []
            ex_no_kwargs ex_world eq_refl eq_refl).
  - discriminate.
  - repeat constructor.
  - vm_compute. discriminate.
Defined.

Lemma C9_witness :
  ex_nested !! "error" = None /\
  fst (completion_target (ex_returns ex_nested) [] ex_no_kwargs ex_world)
  = Some (Ret ex_nested) /\
  fst (chat_completion_target ex_api_utils (ex_returns ex_nested) 1 [] ex_no_kwargs ex_world)
  = Some (Ret ex_nested).
Proof.
  destruct (C9_top_level_error_key ex_api_utils (ex_returns ex_nested) [] ex_no_kwargs
              ex_world ex_nested) as (Hplain & Hchat & Hclean & _).
  split; [reflexivity |]. split.
  - rewrite <- (Hclean eq_refl). exact (Hplain eq_refl).
  - rewrite <- (Hclean eq_refl).
    exact (Hchat 0%nat (VNum 40) ex_no_kwargs (Some 40) eq_refl eq_refl eq_refl eq_refl).
Defined.

Lemma C10_witness :
  ex_kwargs !! "timeout" = Some (VNum 5) /\
  ex_kwargs !! "func" = None /\
  exists (forwarded : Kwargs) evs,
    trace (snd (openai_chat_completion_create_retrying ex_rng ex_api_utils
                  (ex_returns ex_ok) 1 [] ex_kwargs ex_world))
    = trace ex_world ++ evs /\
    Forall (guarded_event [] forwarded (VNum 5)) evs /\
    (1%nat <> 0%nat -> calls_of evs <> [] /\ waits_of evs <> []) /\
    forwarded !! "timeout" = None /\
    (forall key, key <> "timeout" -> forwarded !! key = ex_kwargs !! key).
Proof.
  split; [reflexivity |]. split; [reflexivity |].
  exact (C10_timeout_keyword_consumed ex_rng ex_api_utils (ex_returns ex_ok) 1 []
           ex_kwargs (VNum 5) ex_world eq_refl eq_refl).
Defined.

(** ** Runs on which C2, C3 and C10 fail as first written *)

(** An exception that the loop of [backoff] raises was raised by its
    target. *)
Lemma retry_raise_inv (rng : nat -> Q) (fuel : nat) (exception : list ErrorKind)
    (target : M Response) :
  forall (wait : expo_state) (w w' : World) (e : exn),
    retry rng fuel exception target wait w = (Some (Raise e), w') ->
    exists w1, target w1 = (Some (Raise e), w').
Proof.
  induction fuel as [| fuel IH]; intros wait w w' e H; simpl in H.
  - discriminate.
  - destruct (target w) as [[[ret | e0] |] w1] eqn:Et; try discriminate.
    destruct (isinstance e0 exception).
    + destruct (expo_send wait) as [v wait']. simpl in H. eapply IH, H.
    + injection H as <- <-. eauto.
Qed.

(** C2 as first written fails on this run: two rate-limit errors, then a
    response; the wrapper sleeps 6/5 and then 3/10 of a second, a shorter
    delay after a longer one. *)
Lemma C2_delays_can_decrease :
  fails_then_succeeds ex_flaky [] ex_no_kwargs 0 2 ex_ok /\
  exists w' a b,
    openai_completion_create_retrying ex_rng ex_flaky 3 [] ex_no_kwargs ex_world
    = (Some (Ret ex_ok), w') /\
    sleeps_of (trace w') = [a; b] /\
    a == 6 # 5 /\ b == 3 # 10 /\
    ~ nondecreasing (sleeps_of (trace w')).
Proof.
  split; [apply ex_flaky_fails_then_succeeds |].
  eexists _, _, _. split; [vm_compute; reflexivity |].
  split; [vm_compute; reflexivity |].
  split; [reflexivity |]. split; [reflexivity |].
  intros Hmono. specialize (Hmono 0%nat _ _ eq_refl eq_refl).
  vm_compute in Hmono. apply Hmono. reflexivity.
Qed.

(** C3 as first written fails on this run of the timeout-guarded wrapper:
    the first call raises [concurrent.futures.TimeoutError], which is not in
    the tuple; the wrapper calls again and returns the response of the
    second call, and on no amount of fuel does it raise that exception. *)
Lemma C3_futures_timeout_is_swallowed :
  isinstance FuturesTimeoutError retryable = false /\
  outcome (ex_raises_once FuturesTimeoutError 0%nat [] ex_no_kwargs)
  = inr FuturesTimeoutError /\
  (exists w',
     openai_chat_completion_create_retrying ex_rng ex_api_utils
       (ex_raises_once FuturesTimeoutError) 2 [] ex_no_kwargs ex_world
     = (Some (Ret ex_ok), w') /\
     ncalls w' = 2%nat) /\
  (forall fuel w',
     openai_chat_completion_create_retrying ex_rng ex_api_utils
       (ex_raises_once FuturesTimeoutError) fuel [] ex_no_kwargs ex_world
     <> (Some (Raise FuturesTimeoutError), w')).
Proof.
  split; [reflexivity |]. split; [reflexivity |]. split.
  - eexists. split; vm_compute; reflexivity.
  - intros fuel w' H.
    unfold openai_chat_completion_create_retrying, on_exception in H.
    apply retry_raise_inv in H as [w1 H].
    apply chat_completion_target_raise_inv in H as [Hne _]. now apply Hne.
Qed.

(** C10 as first written fails on this call: with the keywords [timeout] and
    [func], binding the call on line 83 to the signature on line 52 raises
    [TypeError]; the world is left as it was, so no remote call was made and
    the keyword [func] was forwarded to none. *)
Lemma C10_func_keyword_collides :
  ex_kwargs_func !! "timeout" = Some (VNum 5) /\
  ex_kwargs_func !! "func" = Some (VStr "f") /\
  calls_of (trace ex_world) = [] /\
  forall fuel,
    openai_chat_completion_create_retrying ex_rng ex_api_utils (ex_returns ex_ok)
      (S fuel) [] ex_kwargs_func ex_world
    = (Some (Raise (TypeError "got multiple values for argument 'func'")), ex_world).
Proof.
  split; [reflexivity |]. split; [reflexivity |]. split; [reflexivity |].
  intros fuel. unfold openai_chat_completion_create_retrying, on_exception.
  apply retry_first_fatal; reflexivity.
Qed.

(** * Further properties of the three functions *)

(** ** Runs of the plain wrapper, finished or not *)

Section PlainRuns.

Variables (rng : nat -> Q) (create : Callable) (args : list value) (kwargs : Kwargs).

Lemma outcomes_from_S (c n : nat) :
  outcomes_from create args kwargs c (S n)
  = outcome (create c args kwargs) :: outcomes_from create args kwargs (S c) n.
Proof.
  unfold outcomes_from. simpl. rewrite Nat.add_0_r. f_equal.
  rewrite <- seq_shift, map_map. apply map_ext. intros j.
  now rewrite Nat.add_succ_r.
Qed.

Lemma jittered_schedule_S (k d m : nat) :
  map (fun j => 0 + (capped_expo (k + j) - 0) * rng (d + j)%nat) (seq 0 (S m))
  = (0 + (capped_expo k - 0) * rng d)
    :: map (fun j => 0 + (capped_expo (S k + j) - 0) * rng (S d + j)%nat) (seq 0 m).
Proof.
  simpl. rewrite !Nat.add_0_r. f_equal.
  rewrite <- seq_shift, map_map. apply map_ext. intros j.
  now rewrite !Nat.add_succ_r.
Qed.

Lemma plain_run_invariant (fuel : nat) :
  forall (k : nat) (w : World),
    plain_invariant rng create args kwargs fuel k w
      (retry rng fuel retryable (completion_target create args kwargs) (expo_after k) w).
Proof.
  induction fuel as [| fuel IH]; intros k w.
  { exists 0%nat, 0%nat. simpl. rewrite !app_nil_r, !Nat.add_0_r.
    repeat split; try congruence; lia. }
  assert (Hstop : forall x tr,
            embedded_error (outcome (create (ncalls w) args kwargs)) = None ->
            warnings_of tr = [] -> sleeps_of tr = [] -> waits_of tr = [] ->
            calls_of tr = [] ->
            plain_invariant rng create args kwargs (S fuel) k w
              (Some x,
               mkWorld (now w + runtime (create (ncalls w) args kwargs)) (S (ncalls w))
                 (draws w) (environ w) ((trace w ++ [EvCall (now w) args kwargs]) ++ tr))).
  { intros x tr He Hw Hs Hwt Hc. exists 1%nat, 0%nat. cbn [fst snd ncalls draws trace].
    rewrite outcomes_from_S.
    change (omap embedded_error (outcome (create (ncalls w) args kwargs)
                                   :: outcomes_from create args kwargs (S (ncalls w)) 0))
      with (match embedded_error (outcome (create (ncalls w) args kwargs)) with
            | Some r => [r]
            | None => []
            end).
    rewrite He.
    rewrite !calls_of_app, !waits_of_app, !warnings_of_app, !sleeps_of_app.
    rewrite Hw, Hs, Hwt, Hc. simpl. rewrite !app_nil_r.
    repeat split; lia. }
  assert (Hloop : forall e tr ws,
            isinstance e retryable = true ->
            omap embedded_error [outcome (create (ncalls w) args kwargs)] = ws ->
            warnings_of tr = ws -> sleeps_of tr = [] -> waits_of tr = [] ->
            calls_of tr = [] ->
            plain_invariant rng create args kwargs (S fuel) k w
              (retry rng fuel retryable (completion_target create args kwargs)
                 (expo_after (S k))
                 (sleep (0 + (capped_expo k - 0) * rng (draws w))
                    (count_draw
                       (mkWorld (now w + runtime (create (ncalls w) args kwargs))
                          (S (ncalls w)) (draws w) (environ w)
                          ((trace w ++ [EvCall (now w) args kwargs]) ++ tr)))))).
  { intros e tr ws He Hws Hw Hs Hwt Hc.
    destruct (IH (S k)
                (sleep (0 + (capped_expo k - 0) * rng (draws w))
                   (count_draw
                      (mkWorld (now w + runtime (create (ncalls w) args kwargs))
                         (S (ncalls w)) (draws w) (environ w)
                         ((trace w ++ [EvCall (now w) args kwargs]) ++ tr)))))
      as (n & m & Hm & _ & Hn & Hd & Hnm & Hcalls & Hwaits & Hwarn & Hsleeps).
    cbn [sleep count_draw set_now emit ncalls draws trace] in Hn, Hd, Hcalls, Hwaits,
      Hwarn, Hsleeps.
    exists (S n), (S m). split; [lia |]. split; [lia |].
    split; [lia |]. split; [lia |]. split.
    { destruct (fst (retry _ _ _ _ _ _)); lia. }
    rewrite Hcalls, Hwaits, Hwarn, Hsleeps.
    rewrite !calls_of_app, !waits_of_app, !warnings_of_app, !sleeps_of_app.
    rewrite Hw, Hs, Hwt, Hc. simpl calls_of. simpl waits_of. simpl warnings_of.
    simpl sleeps_of. rewrite !app_nil_r.
    rewrite outcomes_from_S, jittered_schedule_S.
    change (outcome (create (ncalls w) args kwargs)
            :: outcomes_from create args kwargs (S (ncalls w)) n)
      with ([outcome (create (ncalls w) args kwargs)]
            ++ outcomes_from create args kwargs (S (ncalls w)) n).
    rewrite omap_app, Hws. rewrite <- !app_assoc. repeat split. }
  cbn [retry]. unfold completion_target at 1, call.
  destruct (outcome (create (ncalls w) args kwargs)) as [result | e] eqn:Ho;
    cbn [res_of_outcome].
  - unfold reclassify, finished.
    destruct (result !! "error") as [payload |] eqn:Herr; cbn [fst snd].
    + rewrite expo_send_after. unfold full_jitter, random_uniform.
      change (emit (EvWarn result)
                (set_now (now w + runtime (create (ncalls w) args kwargs))
                   (count_call (emit (EvCall (now w) args kwargs) w))))
        with (mkWorld (now w + runtime (create (ncalls w) args kwargs)) (S (ncalls w))
                (draws w) (environ w)
                ((trace w ++ [EvCall (now w) args kwargs]) ++ [EvWarn result])).
      apply (Hloop (OpenAIError APIError payload) [EvWarn result] [result]);
        try reflexivity.
      simpl. now rewrite Herr.
    + change (set_now (now w + runtime (create (ncalls w) args kwargs))
                (count_call (emit (EvCall (now w) args kwargs) w)))
        with (mkWorld (now w + runtime (create (ncalls w) args kwargs)) (S (ncalls w))
                (draws w) (environ w) (trace w ++ [EvCall (now w) args kwargs])).
      rewrite <- (app_nil_r (trace w ++ _)).
      apply Hstop; try reflexivity. simpl. now rewrite Herr.
  - change (set_now (now w + runtime (create (ncalls w) args kwargs))
              (count_call (emit (EvCall (now w) args kwargs) w)))
      with (mkWorld (now w + runtime (create (ncalls w) args kwargs)) (S (ncalls w))
              (draws w) (environ w) (trace w ++ [EvCall (now w) args kwargs])).
    destruct (isinstance e retryable) eqn:He.
    + rewrite expo_send_after. unfold full_jitter, random_uniform.
      rewrite <- (app_nil_r (trace w ++ _)).
      apply (Hloop e [] []); try reflexivity. exact He.
    + rewrite <- (app_nil_r (trace w ++ _)).
      apply Hstop; reflexivity.
Qed.

End PlainRuns.

(** X1. The plain wrapper hands its positional and keyword arguments to
    every remote call as they are, a keyword [timeout] included, and never
    waits on a future; with fuel it makes at least one call.  This holds of
    the run as far as it has got. *)
Theorem plain_wrapper_forwards_verbatim (rng : nat -> Q) (create : Callable)
    (fuel : nat) (args : list value) (kwargs : Kwargs) (w : World) :
  let w' := snd (openai_completion_create_retrying rng create fuel args kwargs w) in
  (ncalls w <= ncalls w')%nat /\
  (fuel <> 0%nat -> (ncalls w < ncalls w')%nat) /\
  calls_of (trace w')
  = calls_of (trace w) ++ replicate (ncalls w' - ncalls w) (args, kwargs) /\
  waits_of (trace w') = waits_of (trace w).
Proof.
  unfold openai_completion_create_retrying, on_exception. rewrite expo_after_0.
  destruct (plain_run_invariant rng create args kwargs fuel 0 w)
    as (n & m & _ & Hfuel & Hn & _ & _ & Hcalls & Hwaits & _).
  cbv zeta. rewrite Hn.
  replace (ncalls w + n - ncalls w)%nat with n by lia.
  repeat split; auto; try lia.
Qed.

(** X2. What the plain wrapper logs is exactly the responses with an
    ["error"] field that its remote calls returned, one warning each, in the
    order of the calls: nothing is logged for an exception that a call
    raised or for a response without the field. *)
Theorem plain_wrapper_logs_embedded_errors (rng : nat -> Q) (create : Callable)
    (fuel : nat) (args : list value) (kwargs : Kwargs) (w : World) :
  let w' := snd (openai_completion_create_retrying rng create fuel args kwargs w) in
  warnings_of (trace w')
  = warnings_of (trace w)
    ++ omap embedded_error
         (outcomes_from create args kwargs (ncalls w) (ncalls w' - ncalls w)).
Proof.
  unfold openai_completion_create_retrying, on_exception. rewrite expo_after_0.
  destruct (plain_run_invariant rng create args kwargs fuel 0 w)
    as (n & m & _ & _ & Hn & _ & _ & _ & _ & Hwarn & _).
  cbv zeta. rewrite Hn.
  replace (ncalls w + n - ncalls w)%nat with n by lia. exact Hwarn.
Qed.

(** X3. The plain wrapper sleeps exactly once between two consecutive tries
    and at no other time: a run that has returned or raised made one call
    more than it slept, and the sleeps are the jittered schedule from its
    start, one random draw each. *)
Theorem plain_wrapper_sleeps_between_tries (rng : nat -> Q) (create : Callable)
    (fuel : nat) (args : list value) (kwargs : Kwargs) (w : World) :
  let run := openai_completion_create_retrying rng create fuel args kwargs w in
  exists m,
    (m <= fuel)%nat /\
    sleeps_of (trace (snd run)) = sleeps_of (trace w) ++ backoff_delays rng (draws w) m /\
    draws (snd run) = (draws w + m)%nat /\
    ncalls (snd run)
    = (ncalls w + match fst run with Some _ => S m | None => m end)%nat.
Proof.
  unfold openai_completion_create_retrying, on_exception. rewrite expo_after_0.
  destruct (plain_run_invariant rng create args kwargs fuel 0 w)
    as (n & m & Hm & _ & Hn & Hd & Hnm & _ & _ & _ & Hsleeps).
  cbv zeta. exists m. repeat split; auto. now rewrite Hn, Hnm.
Qed.

(** ** What neither wrapper ever raises *)

Lemma retry_raise_not_instance (rng : nat -> Q) (fuel : nat)
    (exception : list ErrorKind) (target : M Response) :
  forall (wait : expo_state) (w w' : World) (e : exn),
    retry rng fuel exception target wait w = (Some (Raise e), w') ->
    isinstance e exception = false.
Proof.
  induction fuel as [| fuel IH]; intros wait w w' e H; simpl in H.
  - discriminate.
  - destruct (target w) as [[[ret | e0] |] w1] eqn:Et; try discriminate.
    destruct (isinstance e0 exception) eqn:Hi.
    + destruct (expo_send wait) as [v wait']. simpl in H. eapply IH, H.
    + injection H as <- <-. exact Hi.
Qed.

(** X4. No exception of the tuple ever reaches the caller of either
    wrapper: with no cap on the tries, such an exception is always answered
    by another try.  In particular the [APIError] that lines 48 and 86 raise
    is never seen by a caller. *)
Theorem wrappers_never_raise_retryable (rng : nat -> Q) (api_utils : Module)
    (create : Callable) (fuel : nat) (args : list value) (kwargs : Kwargs)
    (w w' : World) (e : exn)
    (Hraise : openai_completion_create_retrying rng create fuel args kwargs w
              = (Some (Raise e), w') \/
              openai_chat_completion_create_retrying rng api_utils create fuel args kwargs w
              = (Some (Raise e), w')) :
  isinstance e retryable = false /\
  forall k payload, e <> OpenAIError k payload.
Proof.
  assert (H : isinstance e retryable = false).
  { destruct Hraise as [H | H];
      unfold openai_completion_create_retrying, openai_chat_completion_create_retrying,
        on_exception in H;
      eapply retry_raise_not_instance, H. }
  split; [exact H |].
  intros k payload ->. rewrite isinstance_retryable in H. discriminate.
Qed.

(** ** Runs that never end *)

Section Forever.

Variable rng : nat -> Q.

Lemma completion_target_transient (create : Callable) (args : list value)
    (kwargs : Kwargs) (w : World) :
  transient (outcome (create (ncalls w) args kwargs)) ->
  exists e w1,
    one_try (completion_target create args kwargs) w (Raise e) w1 /\
    isinstance e retryable = true.
Proof.
  intros Ht.
  destruct (outcome (create (ncalls w) args kwargs)) as [r | e] eqn:Ho; simpl in Ht.
  - destruct Ht as [payload Hp].
    exists (OpenAIError APIError payload),
           (emit (EvWarn r) (snd (call create args kwargs w))).
    split; [| reflexivity].
    unfold one_try, completion_target, call. rewrite Ho. cbn [res_of_outcome].
    rewrite (reclassify_error _ _ _ Hp). cbn [finished fst snd].
    repeat split. cbn [emit set_now count_call trace].
    rewrite !sleeps_of_app. simpl. now rewrite !app_nil_r.
  - exists e, (snd (call create args kwargs w)). split; [| exact Ht].
    now apply completion_target_raises.
Qed.

Lemma retry_never_ends (target : M Response) (c : nat)
    (Htarget : forall w, (c <= ncalls w)%nat ->
                 exists e w1, one_try target w (Raise e) w1 /\
                              isinstance e retryable = true)
    (fuel : nat) :
  forall (wait : expo_state) (w : World),
    (c <= ncalls w)%nat ->
    fst (retry rng fuel retryable target wait w) = None /\
    ncalls (snd (retry rng fuel retryable target wait w)) = (ncalls w + fuel)%nat /\
    length (sleeps_of (trace (snd (retry rng fuel retryable target wait w))))
    = (length (sleeps_of (trace w)) + fuel)%nat.
Proof.
  induction fuel as [| fuel IH]; intros wait w Hc.
  - simpl. repeat split; lia.
  - destruct (Htarget w Hc) as (e & w1 & (Ht & Hn & Hd & Hs) & He).
    cbn [retry]. rewrite Ht, He.
    destruct (expo_send wait) as [v wait']. unfold full_jitter, random_uniform.
    destruct (IH wait' (sleep (0 + (v - 0) * rng (draws w1)) (count_draw w1)))
      as (Hres & Hcalls & Hsleeps).
    { simpl. lia. }
    split; [exact Hres |]. split.
    + rewrite Hcalls. simpl. lia.
    + rewrite Hsleeps. simpl. rewrite sleeps_of_app, length_app, Hs. simpl. lia.
Qed.

End Forever.

(** X5. The plain wrapper never gives up: while every remote call raises an
    exception of the tuple or returns a response with an ["error"] field,
    a run neither returns nor raises, and after [n] tries it has made [n]
    calls and slept [n] times. *)
Theorem plain_wrapper_never_gives_up (rng : nat -> Q) (create : Callable)
    (args : list value) (kwargs : Kwargs) (w : World)
    (Htransient : forall i, (ncalls w <= i)%nat ->
                    transient (outcome (create i args kwargs))) :
  forall fuel,
    let run := openai_completion_create_retrying rng create fuel args kwargs w in
    fst run = None /\
    ncalls (snd run) = (ncalls w + fuel)%nat /\
    length (sleeps_of (trace (snd run))) = (length (sleeps_of (trace w)) + fuel)%nat.
Proof.
  intros fuel. unfold openai_completion_create_retrying, on_exception.
  apply (retry_never_ends rng _ (ncalls w)); [| lia].
  intros w1 Hw1. apply completion_target_transient. now apply Htransient.
Qed.

(** ** [request_with_timeout], finished or not *)

Section ExecutorRuns.

Variables (func : Callable) (args : list value) (timeout : value) (kwargs : Kwargs).

Lemma runtimes_from_S (c n : nat) :
  runtimes_from func args kwargs c (S n)
  = runtime (func c args kwargs) :: runtimes_from func args kwargs (S c) n.
Proof.
  unfold runtimes_from. simpl. rewrite Nat.add_0_r. f_equal.
  rewrite <- seq_shift, map_map. apply map_ext. intros j.
  now rewrite Nat.add_succ_r.
Qed.

Lemma Qmax_same (x : Q) : Qmax x x = x.
Proof. unfold Qmax, GenericMinMax.gmax. now destruct (x ?= x). Qed.

Lemma request_with_timeout_S (fuel : nat) (w : World) :
  request_with_timeout (S fuel) func args timeout kwargs w
  = match one_round func args timeout kwargs w with
    | (Raise FuturesTimeoutError, w3) =>
        request_with_timeout fuel func args timeout kwargs w3
    | (r, w3) => (Some r, w3)
    end.
Proof.
  cbn [request_with_timeout]. unfold one_round.
  destruct (submit func args kwargs w) as [future w1].
  destruct (future_result future timeout w1) as [r w2]. reflexivity.
Qed.

Lemma one_round_ncalls (w : World) :
  ncalls (snd (one_round func args timeout kwargs w)) = S (ncalls w).
Proof.
  unfold one_round, future_result. simpl.
  destruct (deadline_of timeout) as [deadline |]; [| reflexivity].
  destruct (completes_within _ deadline); reflexivity.
Qed.

(** Whichever way a round ends, the caller leaves it when the call of the
    round has finished. *)
Lemma one_round_now (w : World) :
  0 <= runtime (func (ncalls w) args kwargs) ->
  now (snd (one_round func args timeout kwargs w))
  == now w + runtime (func (ncalls w) args kwargs).
Proof.
  intros Hr. unfold one_round, future_result, executor_exit, finish_time. simpl.
  destruct (deadline_of timeout) as [[t |] |]; simpl.
  - destruct (Qle_bool (runtime (func (ncalls w) args kwargs)) t) eqn:Hin; simpl.
    + now rewrite Qmax_same.
    + assert (Hlt : t < runtime (func (ncalls w) args kwargs)).
      { apply Qnot_le_lt. intros Hle. apply Qle_bool_iff in Hle. congruence. }
      apply Q.max_r.
      destruct (Q.max_spec 0 t) as [[_ ->] | [_ ->]]; lra.
  - now rewrite Qmax_same.
  - apply Q.max_r. lra.
Qed.

Lemma request_with_timeout_elapsed
    (Hruntime : forall i, 0 <= runtime (func i args kwargs)) (fuel : nat) :
  forall w : World,
    exists n,
      (n <= fuel)%nat /\
      (fuel <> 0%nat -> n <> 0%nat) /\
      ncalls (snd (request_with_timeout fuel func args timeout kwargs w))
      = (ncalls w + n)%nat /\
      now (snd (request_with_timeout fuel func args timeout kwargs w))
      == now w + Qsum (runtimes_from func args kwargs (ncalls w) n).
Proof.
  induction fuel as [| fuel IH]; intros w.
  { exists 0%nat. simpl. repeat split; try lia; try congruence. ring. }
  rewrite request_with_timeout_S.
  pose proof (one_round_ncalls w) as Hn.
  pose proof (one_round_now w (Hruntime _)) as Ht.
  destruct (one_round func args timeout kwargs w) as [r w3]. cbn [snd] in Hn, Ht.
  assert (Hstop : exists n,
            (n <= S fuel)%nat /\ (S fuel <> 0%nat -> n <> 0%nat) /\
            ncalls w3 = (ncalls w + n)%nat /\
            now w3 == now w + Qsum (runtimes_from func args kwargs (ncalls w) n)).
  { exists 1%nat. repeat split; try lia. rewrite Ht. unfold runtimes_from. simpl.
    rewrite Nat.add_0_r. ring. }
  destruct r as [ret | e]; [exact Hstop |].
  destruct e; try exact Hstop.
  destruct (IH w3) as (n & Hle & _ & Hcalls & Hnow).
  exists (S n). repeat split; try lia.
  rewrite Hnow, Ht, runtimes_from_S, Hn. simpl. ring.
Qed.

(** While every round runs past the deadline or sees the callable raise
    [concurrent.futures.TimeoutError], the loop goes on. *)
Lemma request_with_timeout_never_ends (t : option Q) (c : nat)
    (Hdeadline : deadline_of timeout = Some t)
    (Hround : forall i, (c <= i)%nat ->
                completes_within (func i args kwargs) t = false \/
                outcome (func i args kwargs) = inr FuturesTimeoutError)
    (fuel : nat) :
  forall w : World,
    (c <= ncalls w)%nat ->
    fst (request_with_timeout fuel func args timeout kwargs w) = None /\
    ncalls (snd (request_with_timeout fuel func args timeout kwargs w))
    = (ncalls w + fuel)%nat.
Proof.
  induction fuel as [| fuel IH]; intros w Hc.
  { simpl. split; [reflexivity | lia]. }
  rewrite request_with_timeout_S.
  pose proof (one_round_ncalls w) as Hn.
  assert (Hr : fst (one_round func args timeout kwargs w) = Raise FuturesTimeoutError).
  { unfold one_round, future_result. simpl. rewrite Hdeadline.
    destruct (completes_within (func (ncalls w) args kwargs) t) eqn:Hin; [| reflexivity].
    destruct (Hround (ncalls w) Hc) as [H | H]; [congruence |]. now rewrite H. }
  destruct (one_round func args timeout kwargs w) as [r w3]. cbn [fst snd] in Hn, Hr.
  subst r. destruct (IH w3) as (Hres & Hcalls); [lia |].
  split; [exact Hres |]. rewrite Hcalls. lia.
Qed.

End ExecutorRuns.

(** X6. The time [request_with_timeout] takes is the sum of the runtimes of
    the calls it has issued, whatever the timeout: it never comes back
    before every call it made has finished, and a wait that gave up saves
    no time. *)
Theorem request_with_timeout_takes_all_runtimes (func : Callable)
    (args : list value) (timeout : value) (kwargs : Kwargs) (fuel : nat) (w : World)
    (Hruntime : forall i, 0 <= runtime (func i args kwargs)) :
  let w' := snd (request_with_timeout fuel func args timeout kwargs w) in
  (ncalls w <= ncalls w')%nat /\
  (fuel <> 0%nat -> (ncalls w < ncalls w')%nat) /\
  now w'
  == now w + Qsum (runtimes_from func args kwargs (ncalls w) (ncalls w' - ncalls w)).
Proof.
  cbv zeta.
  destruct (request_with_timeout_elapsed func args timeout kwargs Hruntime fuel w)
    as (n & _ & Hfuel & Hn & Hnow).
  rewrite Hn. replace (ncalls w + n - ncalls w)%nat with n by lia.
  split; [lia |]. split; [| exact Hnow].
  intros H. specialize (Hfuel H). lia.
Qed.

(** X7. [request_with_timeout] has no limit on its rounds: while every
    call runs past the timeout, or raises [concurrent.futures.TimeoutError]
    itself, the function neither returns nor raises, and after [n] rounds it
    has issued [n] calls. *)
Theorem request_with_timeout_never_gives_up (func : Callable) (args : list value)
    (timeout : value) (kwargs : Kwargs) (w : World) (t : option Q)
    (Hdeadline : deadline_of timeout = Some t)
    (Hround : forall i, (ncalls w <= i)%nat ->
                completes_within (func i args kwargs) t = false \/
                outcome (func i args kwargs) = inr FuturesTimeoutError) :
  forall fuel,
    fst (request_with_timeout fuel func args timeout kwargs w) = None /\
    ncalls (snd (request_with_timeout fuel func args timeout kwargs w))
    = (ncalls w + fuel)%nat.
Proof.
  intros fuel.
  apply (request_with_timeout_never_ends func args timeout kwargs t (ncalls w));
    auto.
Qed.

(** ** What [request_with_timeout] hands back *)

Section ExecutorResults.

Variables (func : Callable) (args : list value) (timeout : value) (kwargs : Kwargs).

Lemma one_round_result (w : World) (x : res Response) :
  fst (one_round func args timeout kwargs w) = x ->
  x <> Raise FuturesTimeoutError ->
  (deadline_of timeout = None /\ exists msg, x = Raise (TypeError msg)) \/
  (exists deadline,
     deadline_of timeout = Some deadline /\
     completes_within (func (ncalls w) args kwargs) deadline = true /\
     x = res_of_outcome (outcome (func (ncalls w) args kwargs))).
Proof.
  unfold one_round, future_result. simpl.
  destruct (deadline_of timeout) as [deadline |]; simpl.
  - destruct (completes_within (func (ncalls w) args kwargs) deadline) eqn:Hin; simpl.
    + intros <- _. right. exists deadline. auto.
    + intros <- H. now destruct H.
  - intros <- _. left. eauto.
Qed.

Lemma request_with_timeout_result (fuel : nat) :
  forall (w w' : World) (x : res Response),
    request_with_timeout fuel func args timeout kwargs w = (Some x, w') ->
    (ncalls w < ncalls w')%nat /\
    x <> Raise FuturesTimeoutError /\
    ((deadline_of timeout = None /\ exists msg, x = Raise (TypeError msg)) \/
     (exists deadline,
        deadline_of timeout = Some deadline /\
        completes_within (func (pred (ncalls w')) args kwargs) deadline = true /\
        x = res_of_outcome (outcome (func (pred (ncalls w')) args kwargs)))).
Proof.
  induction fuel as [| fuel IH]; intros w w' x H; [discriminate |].
  rewrite request_with_timeout_S in H.
  pose proof (one_round_ncalls func args timeout kwargs w) as Hn.
  pose proof (one_round_result w) as Hres.
  destruct (one_round func args timeout kwargs w) as [r w3]. cbn [fst snd] in Hn, Hres.
  assert (Hstop : r <> Raise FuturesTimeoutError -> (Some r, w3) = (Some x, w') ->
            (ncalls w < ncalls w')%nat /\
            x <> Raise FuturesTimeoutError /\
            ((deadline_of timeout = None /\ exists msg, x = Raise (TypeError msg)) \/
             (exists deadline,
                deadline_of timeout = Some deadline /\
                completes_within (func (pred (ncalls w')) args kwargs) deadline = true /\
                x = res_of_outcome (outcome (func (pred (ncalls w')) args kwargs))))).
  { intros Hne Heq. injection Heq as -> ->. rewrite Hn. simpl.
    split; [lia |]. split; [exact Hne |]. now apply Hres. }
  destruct r as [ret | e]; [apply Hstop; [discriminate | exact H] |].
  destruct e; try (apply Hstop; [discriminate | exact H]).
  apply IH in H as (Hlt & Hne & Hlast). split; [lia |]. auto.
Qed.

End ExecutorResults.

(** X8. Whatever [request_with_timeout] returns is the response of the last
    call it issued, and that call finished within the timeout: the result of
    a call that ran past the timeout is never handed to the caller, however
    many rounds there were. *)
Theorem request_with_timeout_returns_last_call (func : Callable)
    (args : list value) (timeout : value) (kwargs : Kwargs) (fuel : nat)
    (w w' : World) (r : Response)
    (Hrun : request_with_timeout fuel func args timeout kwargs w = (Some (Ret r), w')) :
  (ncalls w < ncalls w')%nat /\
  outcome (func (pred (ncalls w')) args kwargs) = inl r /\
  exists deadline,
    deadline_of timeout = Some deadline /\
    completes_within (func (pred (ncalls w')) args kwargs) deadline = true.
Proof.
  apply request_with_timeout_result in Hrun as (Hlt & _ & [(_ & msg & Hx) | Hlast]);
    [discriminate |].
  destruct Hlast as (deadline & Hd & Hin & Hx).
  split; [exact Hlt |]. split; [| eauto].
  destruct (outcome (func (pred (ncalls w')) args kwargs)); simpl in Hx; congruence.
Qed.

(** ** Embedded errors are retried like raised ones *)

Section Transient.

Variables (rng : nat -> Q) (api_utils : Module) (create : Callable) (args : list value).

Lemma transient_not_futures_timeout (o : Response + exn) :
  transient o -> o <> inr FuturesTimeoutError.
Proof. intros Ht ->. discriminate. Qed.

Lemma chat_completion_target_transient (fuel : nat) (kwargs kwargs' : Kwargs)
    (timeout : value) (deadline : option Q) (w : World) :
  bind_request_with_timeout api_utils kwargs = inr (timeout, kwargs') ->
  deadline_of timeout = Some deadline ->
  completes_within (create (ncalls w) args kwargs') deadline = true ->
  transient (outcome (create (ncalls w) args kwargs')) ->
  exists e w1,
    one_try (chat_completion_target api_utils create (S fuel) args kwargs) w (Raise e) w1 /\
    isinstance e retryable = true.
Proof.
  intros Hb Hd Hin Ht.
  destruct (outcome (create (ncalls w) args kwargs')) as [r | e] eqn:Ho; simpl in Ht.
  - destruct Ht as [payload Hp].
    exists (OpenAIError APIError payload),
           (emit (EvWarn r) (after_round create args timeout kwargs' w)).
    split; [| reflexivity].
    unfold one_try, chat_completion_target. rewrite Hb.
    rewrite (round_in_time _ _ _ _ _ _ deadline Hd Hin) by (rewrite Ho; discriminate).
    rewrite Ho. cbn [res_of_outcome].
    rewrite (reclassify_error _ _ _ Hp). cbn [finished fst snd].
    repeat split. cbn [emit trace].
    rewrite sleeps_of_app, after_round_sleeps. simpl. now rewrite app_nil_r.
  - exists e, (after_round create args timeout kwargs' w). split; [| exact Ht].
    eapply chat_completion_target_raises; eauto.
    intros ->. discriminate.
Qed.

Lemma outcomes_from_snoc (kwargs : Kwargs) (c n : nat) :
  outcomes_from create args kwargs c (S n)
  = outcomes_from create args kwargs c n ++ [outcome (create (c + n)%nat args kwargs)].
Proof. unfold outcomes_from. now rewrite seq_S, map_app. Qed.

End Transient.

(** X9. A response with an ["error"] field is retried exactly like a raised
    exception of the tuple.  When the first [N] calls each raise such an
    exception or return such a response and call [N] returns a response
    without the field (for the timeout-guarded wrapper: all of them within
    the timeout), either wrapper returns that response after [N] sleeps on
    the jittered schedule, and the plain wrapper has logged the embedded
    errors among the [N] failures, in order. *)
Theorem embedded_errors_are_retried (rng : nat -> Q) (api_utils : Module)
    (create : Callable) (args : list value) (kwargs : Kwargs) (w : World)
    (N : nat) (r : Response)
    (Hclean : r !! "error" = None) :
  ((forall i, (i < N)%nat -> transient (outcome (create (ncalls w + i)%nat args kwargs))) ->
   outcome (create (ncalls w + N)%nat args kwargs) = inl r ->
   forall f, exists w',
     openai_completion_create_retrying rng create (S (N + f)) args kwargs w
     = (Some (Ret r), w') /\
     ncalls w' = (ncalls w + S N)%nat /\
     sleeps_of (trace w') = sleeps_of (trace w) ++ backoff_delays rng (draws w) N /\
     warnings_of (trace w')
     = warnings_of (trace w)
       ++ omap embedded_error (outcomes_from create args kwargs (ncalls w) N)) /\
  (forall timeout kwargs' deadline,
     bind_request_with_timeout api_utils kwargs = inr (timeout, kwargs') ->
     deadline_of timeout = Some deadline ->
     all_in_time create args kwargs' (ncalls w) N deadline ->
     (forall i, (i < N)%nat ->
        transient (outcome (create (ncalls w + i)%nat args kwargs'))) ->
     outcome (create (ncalls w + N)%nat args kwargs') = inl r ->
     forall f, exists w',
       openai_chat_completion_create_retrying rng api_utils create (S (N + f)) args kwargs w
       = (Some (Ret r), w') /\
       ncalls w' = (ncalls w + S N)%nat /\
       sleeps_of (trace w') = sleeps_of (trace w) ++ backoff_delays rng (draws w) N).
Proof.
  split.
  - intros Hfail Hok f.
    pose proof (plain_run_invariant rng create args kwargs (S (N + f)) 0 w) as Hlog.
    unfold openai_completion_create_retrying, on_exception. rewrite expo_after_0.
    destruct (retry_fails_then_returns rng (completion_target create args kwargs)
                r N (ncalls w) 0%nat w f eq_refl) as (w' & Hr & Hn & _ & Hs).
    + intros i w1 Hi Hw1. apply completion_target_transient.
      rewrite Hw1. now apply Hfail.
    + intros w1 Hw1. rewrite <- Hw1 in Hok. eauto using completion_target_returns.
    + exists w'. split; [exact Hr |]. split; [exact Hn |]. split; [exact Hs |].
      rewrite Hr in Hlog.
      destruct Hlog as (n & m & _ & _ & Hn' & _ & _ & _ & _ & Hwarn & _).
      cbn [snd] in Hn', Hwarn. assert (n = S N) as -> by lia.
      rewrite Hwarn, outcomes_from_snoc, omap_app, Hok. simpl. rewrite Hclean.
      now rewrite app_nil_r.
  - intros timeout kwargs' deadline Hb Hd Hin Hfail Hok f.
    unfold openai_chat_completion_create_retrying, on_exception. rewrite expo_after_0.
    destruct (retry_fails_then_returns rng
                (chat_completion_target api_utils create (S (N + f)) args kwargs)
                r N (ncalls w) 0%nat w f eq_refl) as (w' & Hr & Hn & _ & Hs).
    + intros i w1 Hi Hw1.
      eapply chat_completion_target_transient; eauto; rewrite Hw1.
      * apply Hin. lia.
      * now apply Hfail.
    + intros w1 Hw1. specialize (Hin N ltac:(lia)). rewrite <- Hw1 in Hok, Hin.
      exists (after_round create args timeout kwargs' w1).
      eapply chat_completion_target_returns; eauto.
    + exists w'. auto.
Qed.

(** ** The sleeps of the timeout-guarded wrapper *)

Section Sleeps.

Variable rng : nat -> Q.

Lemma one_round_quiet (func : Callable) (args : list value) (timeout : value)
    (kwargs : Kwargs) (w : World) :
  sleeps_of (trace (snd (one_round func args timeout kwargs w))) = sleeps_of (trace w) /\
  draws (snd (one_round func args timeout kwargs w)) = draws w.
Proof.
  unfold one_round, future_result. simpl.
  destruct (deadline_of timeout) as [deadline |]; simpl.
  - destruct (completes_within _ deadline); simpl;
      rewrite !sleeps_of_app; simpl; now rewrite !app_nil_r.
  - rewrite !sleeps_of_app. simpl. now rewrite !app_nil_r.
Qed.

Lemma request_with_timeout_quiet (func : Callable) (args : list value)
    (timeout : value) (kwargs : Kwargs) (fuel : nat) :
  forall w : World,
    sleeps_of (trace (snd (request_with_timeout fuel func args timeout kwargs w)))
    = sleeps_of (trace w) /\
    draws (snd (request_with_timeout fuel func args timeout kwargs w)) = draws w.
Proof.
  induction fuel as [| fuel IH]; intros w; [split; reflexivity |].
  rewrite request_with_timeout_S.
  pose proof (one_round_quiet func args timeout kwargs w) as [Hs Hd].
  destruct (one_round func args timeout kwargs w) as [r w3]. cbn [snd] in Hs, Hd.
  destruct r as [ret | e]; [auto |].
  destruct e; auto.
  destruct (IH w3) as [Hs' Hd']. rewrite Hs', Hd'. auto.
Qed.

Lemma chat_completion_target_quiet (api_utils : Module) (create : Callable)
    (fuel : nat) (args : list value) (kwargs : Kwargs) (w : World) :
  sleeps_of (trace (snd (chat_completion_target api_utils create fuel args kwargs w)))
  = sleeps_of (trace w) /\
  draws (snd (chat_completion_target api_utils create fuel args kwargs w)) = draws w.
Proof.
  unfold chat_completion_target.
  destruct (bind_request_with_timeout api_utils kwargs) as [e | [timeout kwargs']];
    [split; reflexivity |].
  pose proof (request_with_timeout_quiet create args timeout kwargs' fuel w) as [Hs Hd].
  destruct (request_with_timeout fuel create args timeout kwargs' w)
    as [[[result | e] |] w1]; cbn [snd] in Hs, Hd; auto.
  unfold reclassify, finished. destruct (result !! "error"); cbn [fst snd]; auto.
  split; [| exact Hd]. cbn [emit trace]. rewrite sleeps_of_app, Hs. simpl.
  now rewrite app_nil_r.
Qed.

(** Around a target that neither sleeps nor draws, the sleeps of [retry] are
    the jittered schedule. *)
Lemma retry_sleeps (target : M Response)
    (Hquiet : forall w, sleeps_of (trace (snd (target w))) = sleeps_of (trace w) /\
                        draws (snd (target w)) = draws w)
    (fuel : nat) :
  forall (k : nat) (w : World),
    exists m,
      (m <= fuel)%nat /\
      draws (snd (retry rng fuel retryable target (expo_after k) w)) = (draws w + m)%nat /\
      sleeps_of (trace (snd (retry rng fuel retryable target (expo_after k) w)))
      = sleeps_of (trace w)
        ++ map (fun j => 0 + (capped_expo (k + j) - 0) * rng (draws w + j)%nat) (seq 0 m).
Proof.
  induction fuel as [| fuel IH]; intros k w.
  { exists 0%nat. simpl. rewrite app_nil_r. repeat split; lia. }
  cbn [retry]. destruct (Hquiet w) as [Hs Hd].
  assert (Hstop : exists m,
            (m <= S fuel)%nat /\
            draws (snd (target w)) = (draws w + m)%nat /\
            sleeps_of (trace (snd (target w)))
            = sleeps_of (trace w)
              ++ map (fun j => 0 + (capped_expo (k + j) - 0) * rng (draws w + j)%nat)
                   (seq 0 m)).
  { exists 0%nat. simpl. rewrite app_nil_r. repeat split; [lia | lia | exact Hs]. }
  destruct (target w) as [[[ret | e] |] w1]; cbn [snd] in Hs, Hd, Hstop; try exact Hstop.
  destruct (isinstance e retryable); [| exact Hstop].
  rewrite expo_send_after. unfold full_jitter, random_uniform.
  destruct (IH (S k) (sleep (0 + (capped_expo k - 0) * rng (draws w1)) (count_draw w1)))
    as (m & Hm & Hdraws & Hsleeps).
  exists (S m). split; [lia |]. split.
  - rewrite Hdraws. simpl. lia.
  - rewrite Hsleeps. cbn [sleep count_draw set_now emit trace draws].
    rewrite sleeps_of_app, Hs, Hd. simpl sleeps_of.
    rewrite (backoff_delays_S rng (draws w) m k), <- app_assoc. reflexivity.
Qed.

Lemma backoff_delays_bounded (d m : nat) :
  (forall i, 0 <= rng i <= 1) ->
  Forall (fun s => 0 <= s <= 60) (backoff_delays rng d m).
Proof.
  intros Hrng. unfold backoff_delays. apply Forall_forall. intros s Hs.
  apply list_elem_of_In, in_map_iff in Hs as (j & <- & _).
  pose proof (full_jitter_bounds (capped_expo j) (rng (d + j)%nat)
                (Qlt_le_weak _ _ (capped_expo_pos j)) (Hrng _)) as [H0 H1].
  split; [exact H0 |]. eapply Qle_trans; [exact H1 | apply capped_expo_le_60].
Qed.

End Sleeps.

(** X10. However many rounds [request_with_timeout] needs inside a try, the
    sleeps of the timeout-guarded wrapper are the jittered schedule from its
    start, one random draw each: a wait that gave up neither sleeps nor
    moves the schedule on.  With draws between 0 and 1 no sleep is negative
    or longer than 60 seconds. *)
Theorem guarded_wrapper_sleeps_follow_schedule (rng : nat -> Q) (api_utils : Module)
    (create : Callable) (fuel : nat) (args : list value) (kwargs : Kwargs) (w : World) :
  let w' := snd (openai_chat_completion_create_retrying rng api_utils create fuel
                   args kwargs w) in
  exists m,
    (m <= fuel)%nat /\
    draws w' = (draws w + m)%nat /\
    sleeps_of (trace w') = sleeps_of (trace w) ++ backoff_delays rng (draws w) m /\
    ((forall i, 0 <= rng i <= 1) ->
     Forall (fun s => 0 <= s <= 60) (backoff_delays rng (draws w) m)).
Proof.
  cbv zeta. unfold openai_chat_completion_create_retrying, on_exception.
  rewrite expo_after_0.
  destruct (retry_sleeps rng (chat_completion_target api_utils create fuel args kwargs)
              (chat_completion_target_quiet api_utils create fuel args kwargs) fuel 0 w)
    as (m & Hm & Hd & Hs).
  exists m. repeat split; auto. apply backoff_delays_bounded.
Qed.

(** ** The timeout-guarded wrapper without a deadline

    With [timeout=None] a wait on a future lasts until the worker is done,
    so a try of the timeout-guarded wrapper is one remote call.  The retry
    loop over such tries then steps like the retry loop over the bare call
    of the same callable, which carries the invariant of that loop over. *)

Section NoDeadline.

Variables (rng : nat -> Q) (api_utils : Module) (create : Callable) (args : list value).
Variable kwargs : Kwargs.
Hypothesis Hnone : kwargs !! "timeout" = Some VNone.
Hypothesis Hfunc : kwargs !! "func" = None.
Hypothesis Hexn : forall i, outcome (create i args (delete "timeout" kwargs))
                            <> inr FuturesTimeoutError.

Lemma same_but_waits_refl (w : World) : same_but_waits w w.
Proof. repeat split. Qed.

Lemma targets_agree_without_deadline (fuel : nat) (w1 w2 : World) :
  same_but_waits w1 w2 ->
  fst (completion_target create args (delete "timeout" kwargs) w1)
  = fst (chat_completion_target api_utils create (S fuel) args kwargs w2) /\
  same_but_waits (snd (completion_target create args (delete "timeout" kwargs) w1))
    (snd (chat_completion_target api_utils create (S fuel) args kwargs w2)).
Proof.
  intros (Hnow & Hn & Hd & Hc & Hs & Hw).
  unfold chat_completion_target, bind_request_with_timeout. rewrite Hfunc, Hnone.
  change (default (VNum (EVALS_THREAD_TIMEOUT api_utils)) (Some VNone)) with VNone.
  rewrite (round_in_time create args VNone (delete "timeout" kwargs) fuel w2 None
             eq_refl eq_refl (Hexn _)).
  unfold completion_target, call. rewrite Hn.
  assert (Hafter : same_but_waits
            (set_now (now w1 + runtime (create (ncalls w2) args (delete "timeout" kwargs)))
               (count_call (emit (EvCall (now w1) args (delete "timeout" kwargs)) w1)))
            (after_round create args VNone (delete "timeout" kwargs) w2)).
  { unfold same_but_waits, after_round, executor_exit, finish_time. simpl.
    rewrite Qmax_same, !calls_of_app, !sleeps_of_app, !warnings_of_app.
    simpl. rewrite !app_nil_r, Hnow, Hn, Hd, Hc, Hs, Hw. repeat split. }
  destruct (outcome (create (ncalls w2) args (delete "timeout" kwargs))) as [r | e];
    cbn [res_of_outcome]; [| split; [reflexivity | exact Hafter]].
  unfold reclassify, finished. destruct (r !! "error"); cbn [fst snd];
    (split; [reflexivity |]); [| exact Hafter].
  destruct Hafter as (Hnow' & Hn' & Hd' & Hc' & Hs' & Hw').
  unfold same_but_waits. cbn [emit now ncalls draws trace].
  rewrite !calls_of_app, !sleeps_of_app, !warnings_of_app, Hc', Hs', Hw'.
  repeat split; assumption.
Qed.

Lemma retry_agrees (target1 target2 : M Response)
    (Htargets : forall w1 w2, same_but_waits w1 w2 ->
                  fst (target1 w1) = fst (target2 w2) /\
                  same_but_waits (snd (target1 w1)) (snd (target2 w2)))
    (fuel : nat) :
  forall (wait : expo_state) (w1 w2 : World),
    same_but_waits w1 w2 ->
    fst (retry rng fuel retryable target1 wait w1)
    = fst (retry rng fuel retryable target2 wait w2) /\
    same_but_waits (snd (retry rng fuel retryable target1 wait w1))
      (snd (retry rng fuel retryable target2 wait w2)).
Proof.
  induction fuel as [| fuel IH]; intros wait w1 w2 Hw; [split; [reflexivity | exact Hw] |].
  cbn [retry]. destruct (Htargets w1 w2 Hw) as [Hres Hsame].
  destruct (target1 w1) as [x1 v1], (target2 w2) as [x2 v2]. cbn [fst snd] in Hres, Hsame.
  subst x2. destruct x1 as [[ret | e] |]; try (split; [reflexivity | exact Hsame]).
  destruct (isinstance e retryable); [| split; [reflexivity | exact Hsame]].
  destruct (expo_send wait) as [v wait']. unfold full_jitter, random_uniform.
  apply IH. destruct Hsame as (Hnow & Hn & Hd & Hc & Hs & Hwarn).
  unfold same_but_waits. cbn [sleep count_draw set_now emit now ncalls draws trace].
  rewrite !calls_of_app, !sleeps_of_app, !warnings_of_app, Hnow, Hd, Hc, Hs, Hwarn.
  repeat split; assumption.
Qed.

Lemma wrappers_agree_without_deadline (fuel : nat) (w : World) :
  fst (openai_chat_completion_create_retrying rng api_utils create fuel args kwargs w)
  = fst (openai_completion_create_retrying rng create fuel args
           (delete "timeout" kwargs) w) /\
  same_but_waits
    (snd (openai_completion_create_retrying rng create fuel args
            (delete "timeout" kwargs) w))
    (snd (openai_chat_completion_create_retrying rng api_utils create fuel args kwargs w)).
Proof.
  unfold openai_chat_completion_create_retrying, openai_completion_create_retrying,
    on_exception.
  destruct fuel as [| fuel]; [split; [reflexivity | apply same_but_waits_refl] |].
  destruct (retry_agrees (completion_target create args (delete "timeout" kwargs))
              (chat_completion_target api_utils create (S fuel) args kwargs)
              (targets_agree_without_deadline fuel) (S fuel)
              (expo 2 (3 # 2) (Some 60)) w w (same_but_waits_refl w)) as [Hres Hsame].
  split; [now rewrite Hres | exact Hsame].
Qed.

End NoDeadline.

(** X11. Called with [timeout=None] and no keyword [func], on a remote
    call that does not raise [concurrent.futures.TimeoutError] itself, the
    timeout-guarded wrapper makes exactly one remote call per try: a run
    that has ended made one call more than it slept, a run still going as
    many; every call received the positional arguments and the keywords
    without [timeout]; the sleeps are the first delays of the schedule; and
    the warnings are the responses with an ["error"] field among those the
    calls returned, in order. *)
Theorem guarded_wrapper_without_deadline (rng : nat -> Q) (api_utils : Module)
    (create : Callable) (fuel : nat) (args : list value) (kwargs : Kwargs) (w : World)
    (Hnone : kwargs !! "timeout" = Some VNone)
    (Hfunc : kwargs !! "func" = None)
    (Hexn : forall i, outcome (create i args (delete "timeout" kwargs))
                      <> inr FuturesTimeoutError) :
  let run := openai_chat_completion_create_retrying rng api_utils create fuel
               args kwargs w in
  let n := (ncalls (snd run) - ncalls w)%nat in
  exists m,
    (m <= fuel)%nat /\
    draws (snd run) = (draws w + m)%nat /\
    ncalls (snd run)
    = (ncalls w + match fst run with Some _ => S m | None => m end)%nat /\
    calls_of (trace (snd run))
    = calls_of (trace w) ++ replicate n (args, delete "timeout" kwargs) /\
    sleeps_of (trace (snd run)) = sleeps_of (trace w) ++ backoff_delays rng (draws w) m /\
    warnings_of (trace (snd run))
    = warnings_of (trace w)
      ++ omap embedded_error
           (outcomes_from create args (delete "timeout" kwargs) (ncalls w) n).
Proof.
  cbv zeta.
  destruct (wrappers_agree_without_deadline rng api_utils create args kwargs
              Hnone Hfunc Hexn fuel w) as [Hres (_ & Hn & Hd & Hc & Hs & Hw)].
  rewrite Hres, <- Hn, <- Hd, <- Hc, <- Hs, <- Hw.
  unfold openai_completion_create_retrying, on_exception. rewrite expo_after_0.
  destruct (plain_run_invariant rng create args (delete "timeout" kwargs) fuel 0 w)
    as (n & m & Hm & _ & Hcalls & Hdraws & Hnm & Hcallsof & _ & Hwarn & Hsleeps).
  exists m. rewrite Hcalls.
  replace (ncalls w + n - ncalls w)%nat with n by lia.
  split; [exact Hm |]. split; [exact Hdraws |]. split; [now rewrite Hnm |].
  split; [exact Hcallsof |]. split; [exact Hsleeps | exact Hwarn].
Qed.

(** ** Sample runs of the further properties *)

Lemma plain_wrapper_forwards_verbatim_witness :
  let w' := snd (openai_completion_create_retrying ex_rng (ex_returns ex_ok) 1 []
                   ex_kwargs ex_world) in
  (ncalls ex_world < ncalls w')%nat /\
  calls_of (trace w')
  = calls_of (trace ex_world) ++ replicate (ncalls w' - ncalls ex_world) ([], ex_kwargs).
Proof.
  destruct (plain_wrapper_forwards_verbatim ex_rng (ex_returns ex_ok) 1 [] ex_kwargs
              ex_world) as (_ & Hlt & Hcalls & _).
  split; [apply Hlt; discriminate | exact Hcalls].
Defined.

Lemma wrappers_never_raise_retryable_witness :
  openai_completion_create_retrying ex_rng (ex_raises_once (OtherError "ValueError")) 1
    [] ex_no_kwargs ex_world
  = (Some (Raise (OtherError "ValueError")),
     snd (call (ex_raises_once (OtherError "ValueError")) [] ex_no_kwargs ex_world)) /\
  isinstance (OtherError "ValueError") retryable = false.
Proof.
  assert (H : openai_completion_create_retrying ex_rng
                (ex_raises_once (OtherError "ValueError")) 1 [] ex_no_kwargs ex_world
              = (Some (Raise (OtherError "ValueError")),
                 snd (call (ex_raises_once (OtherError "ValueError")) [] ex_no_kwargs
                        ex_world))) by reflexivity.
  split; [exact H |].
  exact (proj1 (wrappers_never_raise_retryable ex_rng ex_api_utils
                  (ex_raises_once (OtherError "ValueError")) 1 [] ex_no_kwargs ex_world
                  _ (OtherError "ValueError") (or_introl H))).
Defined.

Lemma plain_wrapper_never_gives_up_witness :
  (forall i, (ncalls ex_world <= i)%nat ->
     transient (outcome (ex_always_limited i [] ex_no_kwargs))) /\
  fst (openai_completion_create_retrying ex_rng ex_always_limited 3 [] ex_no_kwargs
         ex_world) = None /\
  ncalls (snd (openai_completion_create_retrying ex_rng ex_always_limited 3 []
                 ex_no_kwargs ex_world)) = (ncalls ex_world + 3)%nat.
Proof.
  assert (H : forall i, (ncalls ex_world <= i)%nat ->
                transient (outcome (ex_always_limited i [] ex_no_kwargs))).
  { intros i _. reflexivity. }
  split; [exact H |].
  destruct (plain_wrapper_never_gives_up ex_rng ex_always_limited [] ex_no_kwargs
              ex_world H 3) as (Hres & Hcalls & _).
  split; [exact Hres | exact Hcalls].
Defined.

Lemma request_with_timeout_takes_all_runtimes_witness :
  (forall i, 0 <= runtime (ex_slow 1 i [] ex_no_kwargs)) /\
  now (snd (request_with_timeout 2 (ex_slow 1) [] (VNum 40) ex_no_kwargs ex_world))
  == now ex_world
     + Qsum (runtimes_from (ex_slow 1) [] ex_no_kwargs (ncalls ex_world)
               (ncalls (snd (request_with_timeout 2 (ex_slow 1) [] (VNum 40)
                               ex_no_kwargs ex_world))
                - ncalls ex_world)).
Proof.
  assert (H : forall i, 0 <= runtime (ex_slow 1 i [] ex_no_kwargs)).
  { intros i. unfold ex_slow. destruct (i <? 1)%nat; vm_compute; discriminate. }
  split; [exact H |].
  exact (proj2 (proj2 (request_with_timeout_takes_all_runtimes (ex_slow 1) []
                         (VNum 40) ex_no_kwargs 2 ex_world H))).
Defined.

Lemma request_with_timeout_never_gives_up_witness :
  deadline_of (VNum 40) = Some (Some 40) /\
  fst (request_with_timeout 3 ex_always_slow [] (VNum 40) ex_no_kwargs ex_world) = None /\
  ncalls (snd (request_with_timeout 3 ex_always_slow [] (VNum 40) ex_no_kwargs ex_world))
  = (ncalls ex_world + 3)%nat.
Proof.
  split; [reflexivity |].
  refine (request_with_timeout_never_gives_up ex_always_slow [] (VNum 40) ex_no_kwargs
            ex_world (Some 40) eq_refl _ 3).
  intros i _. left. reflexivity.
Defined.

Lemma request_with_timeout_returns_last_call_witness :
  request_with_timeout 3 (ex_slow 2) [] (VNum 40) ex_no_kwargs ex_world
  = (Some (Ret ex_ok),
     snd (request_with_timeout 3 (ex_slow 2) [] (VNum 40) ex_no_kwargs ex_world)) /\
  outcome (ex_slow 2
             (pred (ncalls (snd (request_with_timeout 3 (ex_slow 2) [] (VNum 40)
                                   ex_no_kwargs ex_world))))
             [] ex_no_kwargs)
  = inl ex_ok.
Proof.
  assert (H : request_with_timeout 3 (ex_slow 2) [] (VNum 40) ex_no_kwargs ex_world
              = (Some (Ret ex_ok),
                 snd (request_with_timeout 3 (ex_slow 2) [] (VNum 40) ex_no_kwargs
                        ex_world))) by (vm_compute; reflexivity).
  split; [exact H |].
  exact (proj1 (proj2 (request_with_timeout_returns_last_call (ex_slow 2) [] (VNum 40)
                         ex_no_kwargs 3 ex_world _ ex_ok H))).
Defined.

Lemma ex_mixed_transient (kwargs : Kwargs) (i : nat) :
  (i < 2)%nat -> transient (outcome (ex_mixed (ncalls ex_world + i)%nat [] kwargs)).
Proof.
  intros Hi. destruct i as [| [| i]]; [eexists; reflexivity | reflexivity | lia].
Defined.

Lemma embedded_errors_are_retried_witness :
  ex_ok !! "error" = None /\
  (exists w',
     openai_completion_create_retrying ex_rng ex_mixed 3 [] ex_no_kwargs ex_world
     = (Some (Ret ex_ok), w') /\
     ncalls w' = 3%nat /\
     sleeps_of (trace w') = sleeps_of (trace ex_world) ++ backoff_delays ex_rng 0 2 /\
     warnings_of (trace w')
     = warnings_of (trace ex_world)
       ++ omap embedded_error (outcomes_from ex_mixed [] ex_no_kwargs 0 2)) /\
  (exists w',
     openai_chat_completion_create_retrying ex_rng ex_api_utils ex_mixed 3 []
       ex_no_kwargs ex_world
     = (Some (Ret ex_ok), w') /\
     ncalls w' = 3%nat /\
     sleeps_of (trace w') = sleeps_of (trace ex_world) ++ backoff_delays ex_rng 0 2).
Proof.
  destruct (embedded_errors_are_retried ex_rng ex_api_utils ex_mixed [] ex_no_kwargs
              ex_world 2 ex_ok eq_refl) as (Hplain & Hchat).
  split; [reflexivity |]. split.
  - exact (Hplain (ex_mixed_transient ex_no_kwargs) eq_refl 0%nat).
  - refine (Hchat (VNum 40) ex_no_kwargs (Some 40) eq_refl eq_refl _
              (ex_mixed_transient ex_no_kwargs) eq_refl 0%nat).
    intros i Hi. destruct i as [| [| i]]; reflexivity.
Defined.

Lemma ex_rng_in_unit_interval (i : nat) : 0 <= ex_rng i <= 1.
Proof. destruct i; split; vm_compute; discriminate. Defined.

Lemma guarded_wrapper_sleeps_follow_schedule_witness :
  (forall i, 0 <= ex_rng i <= 1) /\
  exists m,
    sleeps_of (trace (snd (openai_chat_completion_create_retrying ex_rng ex_api_utils
                             ex_flaky 3 [] ex_no_kwargs ex_world)))
    = sleeps_of (trace ex_world) ++ backoff_delays ex_rng (draws ex_world) m /\
    Forall (fun s => 0 <= s <= 60) (backoff_delays ex_rng (draws ex_world) m).
Proof.
  split; [exact ex_rng_in_unit_interval |].
  destruct (guarded_wrapper_sleeps_follow_schedule ex_rng ex_api_utils ex_flaky 3 []
              ex_no_kwargs ex_world) as (m & _ & _ & Hs & Hbound).
  exists m. split; [exact Hs | exact (Hbound ex_rng_in_unit_interval)].
Defined.

Lemma guarded_wrapper_without_deadline_witness :
  ex_kwargs_none !! "timeout" = Some VNone /\
  ex_kwargs_none !! "func" = None /\
  (forall i, outcome (ex_flaky i [] (delete "timeout" ex_kwargs_none))
             <> inr FuturesTimeoutError) /\
  exists m,
    ncalls (snd (openai_chat_completion_create_retrying ex_rng ex_api_utils ex_flaky 3 []
                   ex_kwargs_none ex_world))
    = (ncalls ex_world
       + match fst (openai_chat_completion_create_retrying ex_rng ex_api_utils ex_flaky
                      3 [] ex_kwargs_none ex_world) with
         | Some _ => S m
         | None => m
         end)%nat /\
    sleeps_of (trace (snd (openai_chat_completion_create_retrying ex_rng ex_api_utils
                             ex_flaky 3 [] ex_kwargs_none ex_world)))
    = sleeps_of (trace ex_world) ++ backoff_delays ex_rng (draws ex_world) m.
Proof.
  assert (Hexn : forall i, outcome (ex_flaky i [] (delete "timeout" ex_kwargs_none))
                           <> inr FuturesTimeoutError).
  { intros i. destruct i as [| [| i]]; discriminate. }
  split; [reflexivity |]. split; [reflexivity |]. split; [exact Hexn |].
  destruct (guarded_wrapper_without_deadline ex_rng ex_api_utils ex_flaky 3 []
              ex_kwargs_none ex_world eq_refl eq_refl Hexn)
    as (m & _ & _ & Hn & _ & Hs & _).
  exists m. split; [exact Hn | exact Hs].
Defined.
